(** * rn-wallet: a shallow embedding of the backend handlers, the rate
    limiter and the mobile data hook, with the properties of their
    specification.

  Layout: the JavaScript fragment the sources rely on ([Js]), the
  rate-limiting middleware ([RateLimiter]), the transaction store and the
  request handlers ([Store], [Controller]), the asynchronous model of the
  React hook ([Async], [Hook]); the theorems follow the definitions. *)

From Stdlib Require Import List String Ascii Bool ZArith QArith Lia.
From Stdlib Require Import Permutation Sorted.
Import ListNotations.

Local Open Scope string_scope.
Local Open Scope Z_scope.

(* ================================================================== *)
(** * Part I: definitions *)
(* ================================================================== *)

(** ** The JavaScript fragment used by the sources *)

Module Js.

(** Values that travel in request bodies, route parameters and JSON
    responses.  Numbers are the finite ones a JSON document can carry. *)
#[warnings="-register-all"]
Inductive JsValue : Type :=
| JUndefined
| JNull
| JBool (b : bool)
| JNum (q : Q)
| JStr (s : string)
| JArr (items : list JsValue)
| JObj (fields : list (string * JsValue)).

Inductive JsType : Type :=
| TUndefined | TObject | TBoolean | TNumber | TString.

Definition JsType_eqb (a b : JsType) : bool :=
  match a, b with
  | TUndefined, TUndefined | TObject, TObject | TBoolean, TBoolean
  | TNumber, TNumber | TString, TString => true
  | _, _ => false
  end.

(** [typeof v] *)
Definition typeof (v : JsValue) : JsType :=
  match v with
  | JUndefined => TUndefined
  | JNull => TObject
  | JBool _ => TBoolean
  | JNum _ => TNumber
  | JStr _ => TString
  | JArr _ => TObject
  | JObj _ => TObject
  end.

(** ToBoolean: [undefined], [null], [false], [0] and the empty string are
    falsy, every other value is truthy. *)
Definition truthy (v : JsValue) : bool :=
  match v with
  | JUndefined => false
  | JNull => false
  | JBool b => b
  | JNum q => negb (Qeq_bool q 0)
  | JStr s => negb (String.eqb s "")
  | JArr _ => true
  | JObj _ => true
  end.

(** [!v] *)
Definition not (v : JsValue) : bool := negb (truthy v).

(** [a || b] *)
Definition or (a b : JsValue) : JsValue := if truthy a then a else b.

(** A field that is missing or empty: [undefined], [null], the empty
    string, [false] or zero. *)
Definition blank (v : JsValue) : Prop :=
  v = JUndefined \/ v = JNull \/ v = JStr "" \/ v = JBool false \/
  exists q, v = JNum q /\ (q == 0)%Q.

(** [v === undefined] *)
Definition is_undefined (v : JsValue) : bool :=
  match v with JUndefined => true | _ => false end.

(** Property lookup [v.key]: on a parsed JSON object (which holds each key
    once) the entry under that key, [undefined] when there is none; on any
    other value the handlers meet, [undefined]. *)
Fixpoint lookup (key : string) (fields : list (string * JsValue)) : JsValue :=
  match fields with
  | [] => JUndefined
  | (k, v) :: rest => if String.eqb k key then v else lookup key rest
  end.

Definition get (v : JsValue) (key : string) : JsValue :=
  match v with
  | JObj fields => lookup key fields
  | _ => JUndefined
  end.

(** A value read from [req.params] or [req.headers]: a string when the
    entry exists, [undefined] otherwise. *)
Definition of_option (o : option string) : JsValue :=
  match o with
  | Some s => JStr s
  | None => JUndefined
  end.

(** ToString of such a value, as in a template literal or in the
    argument of [parseInt]. *)
Definition text (o : option string) : string :=
  match o with
  | Some s => s
  | None => "undefined"
  end.

(** *** Strings.  A string is a sequence of code units below 256 (HTTP
    headers and route parameters arrive that way). *)

(** WhiteSpace and LineTerminator code units: TAB, LF, VT, FF, CR, SP and
    NBSP. *)
Definition is_white_space (c : ascii) : bool :=
  let n := nat_of_ascii c in
  (Nat.eqb n 9 || Nat.eqb n 10 || Nat.eqb n 11 || Nat.eqb n 12
   || Nat.eqb n 13 || Nat.eqb n 32 || Nat.eqb n 160)%bool.

Fixpoint trimStart (s : string) : string :=
  match s with
  | EmptyString => EmptyString
  | String c r => if is_white_space c then trimStart r else s
  end.

Fixpoint trimEnd (s : string) : string :=
  match s with
  | EmptyString => EmptyString
  | String c r =>
      match trimEnd r with
      | EmptyString =>
          if is_white_space c then EmptyString else String c EmptyString
      | r' => String c r'
      end
  end.

(** [s.trim()] *)
Definition trim (s : string) : string := trimEnd (trimStart s).

(** [s.split(sep)] for a one-character separator: the pieces between the
    separators, in order; a string without separator is its own single
    piece, the empty string included. *)
Fixpoint split (sep : ascii) (s : string) : list string :=
  match s with
  | EmptyString => [EmptyString]
  | String c r =>
      if Ascii.eqb c sep then EmptyString :: split sep r
      else
        match split sep r with
        | tok :: toks => String c tok :: toks
        | [] => [String c EmptyString]
        end
  end.

(** The wording of the specification for [split(",")[0]] and [trim()]. *)

Fixpoint all_white (s : string) : bool :=
  match s with
  | EmptyString => true
  | String c r => (is_white_space c && all_white r)%bool
  end.

Definition starts_white (s : string) : bool :=
  match s with
  | EmptyString => false
  | String c _ => is_white_space c
  end.

Fixpoint ends_white (s : string) : bool :=
  match s with
  | EmptyString => false
  | String c EmptyString => is_white_space c
  | String _ r => ends_white r
  end.

Fixpoint contains (sep : ascii) (s : string) : bool :=
  match s with
  | EmptyString => false
  | String c r => (Ascii.eqb c sep || contains sep r)%bool
  end.

(** [tok] is the first [sep]-separated token of [h]: what stands before
    the first [sep], all of [h] when it has none. *)
Definition first_token (sep : ascii) (h tok : string) : Prop :=
  contains sep tok = false /\
  (h = tok \/ exists rest, h = tok ++ String sep rest).

(** [k] is [tok] trimmed: [tok] without the white space at its two ends. *)
Definition trimmed_of (tok k : string) : Prop :=
  exists pre post,
    tok = pre ++ k ++ post /\
    all_white pre = true /\ all_white post = true /\
    starts_white k = false /\ ends_white k = false.

(** *** parseInt(s) with no radix argument.  [None] stands for NaN. *)

Definition digit_value (c : ascii) : option Z :=
  let n := nat_of_ascii c in
  if (Nat.leb 48 n && Nat.leb n 57)%bool then Some (Z.of_nat (n - 48))
  else None.

Definition hex_digit_value (c : ascii) : option Z :=
  let n := nat_of_ascii c in
  if (Nat.leb 48 n && Nat.leb n 57)%bool then Some (Z.of_nat (n - 48))
  else if (Nat.leb 97 n && Nat.leb n 102)%bool then Some (Z.of_nat (n - 87))
  else if (Nat.leb 65 n && Nat.leb n 70)%bool then Some (Z.of_nat (n - 55))
  else None.

(** Reads the longest prefix of digits in the given radix; [acc] is the
    value read so far and [seen] tells whether a digit was read. *)
Fixpoint read_digits (radix : Z) (digit : ascii -> option Z)
         (s : string) (acc : Z) (seen : bool) : option Z :=
  match s with
  | EmptyString => if seen then Some acc else None
  | String c r =>
      match digit c with
      | Some d => read_digits radix digit r (radix * acc + d) true
      | None => if seen then Some acc else None
      end
  end.

Definition strip_sign (s : string) : Z * string :=
  match s with
  | String c r =>
      if Ascii.eqb c "-" then (-1, r)
      else if Ascii.eqb c "+" then (1, r)
      else (1, s)
  | EmptyString => (1, s)
  end.

(** A leading [0x] or [0X] switches to radix 16. *)
Definition parse_magnitude (s : string) : option Z :=
  match s with
  | String c1 (String c2 r) =>
      if (Ascii.eqb c1 "0" && (Ascii.eqb c2 "x" || Ascii.eqb c2 "X"))%bool
      then read_digits 16 hex_digit_value r 0 false
      else read_digits 10 digit_value s 0 false
  | _ => read_digits 10 digit_value s 0 false
  end.

Definition parseInt (s : string) : option Z :=
  let (sign, body) := strip_sign (trimStart s) in
  match parse_magnitude body with
  | Some m => Some (sign * m)
  | None => None
  end.

(** [isNaN(parseInt(s))] *)
Definition isNaN_parseInt (s : string) : bool :=
  match parseInt s with
  | Some _ => false
  | None => true
  end.

(** What an awaited call gives back: a value, or a thrown error. *)
Inductive Outcome (A : Type) : Type :=
| Returned (a : A)
| Thrown (err : string).

Arguments Returned {A} a.
Arguments Thrown {A} err.

End Js.

(** ** backend/src/middleware/rateLimiter.js *)

Module RateLimiter.
Import Js.

(** The parts of the Express request the middleware reads. *)
Record Request : Type := mkRequest {
  x_forwarded_for : option string;      (* req.headers["x-forwarded-for"] *)
  ip : JsValue;                         (* req.ip *)
  remoteAddress : JsValue               (* req.connection.remoteAddress *)
}.

(** What the middleware does to the outside, in order. *)
Inductive Effect : Type :=
| LimitCall (key : JsValue)             (* ratelimit.limit(ip) *)
| ResStatus (code : Z)                  (* res.status(code) *)
| ResJson (body : JsValue)              (* .json(body) *)
| ConsoleError (label : string) (err : string)
| Next                                  (* next() *)
| NextError (err : string).             (* next(error) *)

Definition too_many_requests : JsValue :=
  JObj [("message", JStr "Too many requests, please try again later.")].

(** Lines 5-9: the client key.  Indexing the split result past its end
    gives [undefined], on which [.trim()] throws. *)
Definition client_key (req : Request) : Outcome JsValue :=
  let forwarded := of_option (x_forwarded_for req) in
  match forwarded with
  | JStr h =>
      match nth_error (split "," h) 0 with
      | Some tok => Returned (JStr (trim tok))
      | None => Thrown "TypeError"
      end
  | _ => Returned (or (ip req) (remoteAddress req))
  end.

Section WithLimiter.

(** The hosted limiter: its answer for a key is [{ success }], or the
    call fails. *)
Variable limit : JsValue -> Outcome bool.

Definition on_error (err : string) : list Effect :=
  [ConsoleError "Rate limiter error:" err; NextError err].

Definition rateLimiter (req : Request) : list Effect :=
  match client_key req with
  | Thrown err => on_error err
  | Returned key =>
      LimitCall key ::
      match limit key with
      | Thrown err => on_error err
      | Returned success =>
          if negb success
          then [ResStatus 429; ResJson too_many_requests]
          else [Next]
      end
  end.

End WithLimiter.

End RateLimiter.

(** ** The transaction store *)

Module Store.
Import Js.

(** Modelled from the spec: the Transaction entity of the data model (the
    table definition is not among the sources).  [id] and [createdAt] are
    assigned by the store; [amount] is signed, positive for income and
    negative for expense. *)
Record Transaction : Type := mkTransaction {
  id : Z;
  userId : string;
  title : string;
  amount : Q;
  category : string;
  createdAt : Z
}.

(** Modelled from the spec: the Transaction Store behind the [db] object
    of the handlers (the database is not among the sources), a single
    table of transaction rows together with the next identifier and the
    clock from which the store assigns [id] and [createdAt]. *)
Record t : Type := mkStore {
  rows : list Transaction;
  next_id : Z;
  clock : Z
}.

Definition empty : t := mkStore [] 1 0.

(** The values a handler passes to an insert. *)
Record NewItem : Type := mkNewItem {
  new_userId : JsValue;
  new_title : JsValue;
  new_amount : JsValue;
  new_category : JsValue
}.

(** The row as the handlers see it. *)
Definition to_json (r : Transaction) : JsValue :=
  JObj [("id", JNum (inject_Z (id r)));
        ("userId", JStr (userId r));
        ("title", JStr (title r));
        ("amount", JNum (amount r));
        ("category", JStr (category r));
        ("createdAt", JNum (inject_Z (createdAt r)))].

Definition as_text (v : JsValue) : option string :=
  match v with JStr s => Some s | _ => None end.

Definition as_numeric (v : JsValue) : option Q :=
  match v with JNum q => Some q | _ => None end.

(** Modelled from the spec: [db.create], whose implementation is not
    among the sources.  The store assigns [id] and [createdAt], appends
    the row and hands it back; a value that does not fit its column makes
    the statement fail and leaves the table as it was. *)
Definition create (item : NewItem) (s : t) : Outcome JsValue * t :=
  match as_text (new_userId item), as_text (new_title item),
        as_numeric (new_amount item), as_text (new_category item) with
  | Some u, Some ti, Some a, Some c =>
      let r := mkTransaction (next_id s) u ti a c (clock s) in
      (Returned (to_json r),
       mkStore (rows s ++ [r]) (next_id s + 1) (clock s + 1))
  | _, _, _, _ => (Thrown "invalid input value", s)
  end.

Fixpoint all_digits (s : string) : bool :=
  match s with
  | EmptyString => true
  | String c r =>
      match digit_value c with
      | Some _ => all_digits r
      | None => false
      end
  end.

(** A decimal numeral: an optional sign and at least one digit, nothing
    else. *)
Definition is_numeral (s : string) : bool :=
  let (_, body) := strip_sign s in
  (negb (String.eqb body "") && all_digits body)%bool.

(** The integer a numeral denotes. *)
Definition numeral_value (s : string) : option Z :=
  if is_numeral s then
    let (sign, body) := strip_sign s in
    match read_digits 10 digit_value body 0 false with
    | Some m => Some (sign * m)
    | None => None
    end
  else None.

Definition as_id (v : JsValue) : option Z :=
  match v with
  | JStr s => numeral_value s
  | JNum q => if Pos.eqb (Qden q) 1 then Some (Qnum q) else None
  | _ => None
  end.

Definition has_id (n : Z) (r : Transaction) : bool := Z.eqb (id r) n.

(** Modelled from the spec: [db.deleteById], whose implementation is not
    among the sources: physical deletion by id.  Gives back the deleted
    row, or [null] when no row has that id; an id that is not an integer
    makes the statement fail. *)
Definition deleteById (idv : JsValue) (s : t) : Outcome JsValue * t :=
  match as_id idv with
  | None => (Thrown "invalid input syntax for type integer", s)
  | Some n =>
      match find (has_id n) (rows s) with
      | None => (Returned JNull, s)
      | Some r =>
          (Returned (to_json r),
           mkStore (filter (fun x => negb (has_id n x)) (rows s))
                   (next_id s) (clock s))
      end
  end.

Definition owned_by (u : string) (r : Transaction) : bool :=
  String.eqb (userId r) u.

(** [r] goes before [x] in a descending listing. *)
Definition newer_or_same (r x : Transaction) : bool :=
  Z.leb (createdAt x) (createdAt r).

Fixpoint insert_desc (r : Transaction) (l : list Transaction)
  : list Transaction :=
  match l with
  | [] => [r]
  | x :: rest =>
      if newer_or_same r x then r :: l else x :: insert_desc r rest
  end.

(** ORDER BY created_at DESC *)
Fixpoint order_by_createdAt_desc (l : list Transaction) : list Transaction :=
  match l with
  | [] => []
  | r :: rest => insert_desc r (order_by_createdAt_desc rest)
  end.

(** Modelled from the spec: the listing query of ListByUser (not among
    the sources), all rows of the user, most recent first. *)
Definition select_by_user (u : string) (s : t) : list Transaction :=
  order_by_createdAt_desc (filter (owned_by u) (rows s)).

(** Modelled from the spec: an aggregate query of Summary (not among the
    sources), SUM(amount) over the rows satisfying [p], accumulated in
    one pass over the table; NULL ([None]) when no row satisfies [p]. *)
Definition sum_where (p : Transaction -> bool) (l : list Transaction)
  : option Q :=
  fold_left
    (fun acc r =>
       if p r then
         match acc with
         | None => Some (amount r)
         | Some a => Some (a + amount r)%Q
         end
       else acc)
    l None.

(** COALESCE(x, d) *)
Definition coalesce (x : option Q) (d : Q) : Q :=
  match x with Some q => q | None => d end.

Definition is_income (r : Transaction) : bool :=
  match (0 ?= amount r)%Q with Lt => true | _ => false end.

Definition is_expense (r : Transaction) : bool :=
  match (amount r ?= 0)%Q with Lt => true | _ => false end.

(** The scenario of the specification: A and B of user 1 (100, then -30)
    and C of user 2 (50), created in this order. *)
Definition scenario : t :=
  mkStore [mkTransaction 1 "1" "A" 100 "salary" 0;
           mkTransaction 2 "1" "B" (-30) "food" 1;
           mkTransaction 3 "2" "C" 50 "gift" 2]
          4 3.

(** The wording of the specification. *)

(** The transactions that belong to [u]. *)
Definition transactions_of (u : string) (s : t) : list Transaction :=
  filter (owned_by u) (rows s).

(** The arithmetic sum of the amounts of [l]. *)
Definition total (l : list Transaction) : Q :=
  fold_right (fun r acc => (amount r + acc)%Q) 0%Q l.

(** Most recent first. *)
Definition descending (l : list Transaction) : Prop :=
  StronglySorted (fun a b => createdAt b <= createdAt a) l.

(** Identifiers are unique and below the next one to be assigned. *)
Definition wf (s : t) : Prop :=
  NoDup (map id (rows s)) /\ Forall (fun r => id r < next_id s) (rows s).

End Store.

(** ** The transactions service *)

Module Controller.
Import Js.

Record Reply : Type := mkReply {
  status : Z;                      (* res.status(code) *)
  body : JsValue;                  (* .json(body) *)
  console : list string            (* labels passed to console.error *)
}.

Definition respond (code : Z) (b : JsValue) : Reply := mkReply code b [].

Definition message (m : string) : JsValue := JObj [("message", JStr m)].

Definition internal_error (label : string) : Reply :=
  mkReply 500 (message "Internal server error") [label].

Section WithDb.

(** The [db] object of the handlers: each call runs against the store
    state [St] and either gives a value back or throws. *)
Variable St : Type.
Variable db_create : Store.NewItem -> St -> Outcome JsValue * St.
Variable db_deleteById : JsValue -> St -> Outcome JsValue * St.

(** part_001, lines 74-102.  [req_body] is the parsed request body. *)
Definition createItem (req_body : JsValue) (s : St) : Reply * St :=
  match req_body with
  | JUndefined | JNull =>
      (* nothing to destructure: the TypeError lands in the catch *)
      (internal_error "Error creating item:", s)
  | _ =>
  let userId := get req_body "userId" in
  let title := get req_body "title" in
  let amount := get req_body "amount" in
  let category := get req_body "category" in
  if (Js.not userId || Js.not title || is_undefined amount
      || Js.not category)%bool
  then (respond 400
          (message "All fields are required: userId, title, amount, category"),
        s)
  else if negb (JsType_eqb (typeof amount) TNumber)
  then (respond 400 (message "Amount must be a number"), s)
  else
    match db_create (Store.mkNewItem userId title amount category) s with
    | (Returned newItem, s') => (respond 201 newItem, s')
    | (Thrown _, s') => (internal_error "Error creating item:", s')
    end
  end.

(** part_001, lines 192-219.  [params_id] is [req.params.id]. *)
Definition deleteItem (params_id : option string) (s : St) : Reply * St :=
  let id := of_option params_id in
  if Js.not id
  then (respond 400 (message "Item ID is required"), s)
  else if isNaN_parseInt (text params_id)
  then (respond 400 (message "Invalid item ID format"), s)
  else
    match db_deleteById id s with
    | (Returned deletedItem, s') =>
        if Js.not deletedItem
        then (respond 404 (message "Item not found"), s')
        else (respond 200
                (JObj [("message", JStr "Item deleted successfully");
                       ("deletedItem", deletedItem)]),
              s')
    | (Thrown _, s') => (internal_error "Error deleting item:", s')
    end.

End WithDb.

(** Modelled from the spec: ListByUser, the handler of
    GET /transactions/{userId} (its source is not among the files): 200
    with the user's transactions, most recent first. *)
Definition ListByUser (userId : string) (s : Store.t) : Reply :=
  respond 200 (JArr (map Store.to_json (Store.select_by_user userId s))).

Record SummaryTriple : Type := mkSummary {
  balance : Q;
  income : Q;
  expense : Q
}.

(** Modelled from the spec: the three aggregate queries of Summary
    (its source is not among the files).  [expense] is the sum of the
    negative amounts, hence never positive. *)
Definition summary_of (userId : string) (s : Store.t) : SummaryTriple :=
  let mine := Store.owned_by userId in
  mkSummary
    (Store.coalesce (Store.sum_where mine (Store.rows s)) 0)
    (Store.coalesce
       (Store.sum_where (fun r => mine r && Store.is_income r)%bool
                        (Store.rows s)) 0)
    (Store.coalesce
       (Store.sum_where (fun r => mine r && Store.is_expense r)%bool
                        (Store.rows s)) 0).

(** Modelled from the spec: Summary, the handler of
    GET /transactions/summary/{userId}. *)
Definition Summary (userId : string) (s : Store.t) : Reply :=
  let t := summary_of userId s in
  respond 200
    (JObj [("balance", JNum (balance t));
           ("income", JNum (income t));
           ("expense", JNum (expense t))]).

End Controller.

(** ** Asynchronous functions

    An [async] function body as a tree: synchronous effects, the places
    where it suspends, and how it goes on once the awaited promise has
    settled.  Calling the function runs it up to its first suspension;
    each settlement runs the resumed function up to its next one. *)

Module Async.
Import Js.
Local Open Scope list_scope.

(** What [fetch] resolves with.  [resp_body] is the body parsed as JSON,
    [None] when it does not parse. *)
Record Response : Type := mkResponse {
  resp_status : Z;
  resp_body : option JsValue
}.

(** [response.ok] *)
Definition ok (r : Response) : bool :=
  (Z.leb 200 (resp_status r) && Z.leb (resp_status r) 299)%bool.

(** What [response.json()] settles with. *)
Definition json_of (r : Response) : Outcome JsValue :=
  match resp_body r with
  | Some d => Returned d
  | None => Thrown "SyntaxError"
  end.

Section Procs.

Variable E : Type.                 (* the synchronous effects *)

Inductive Proc : Type :=
| Ret                                             (* the function returns *)
| Throw (err : string)                            (* an uncaught throw *)
| Do (e : E) (k : Proc)                           (* a synchronous effect *)
| AwaitFetch (k : Outcome Response -> Proc)       (* await of a fetch *)
| AwaitJson (r : Response) (k : Outcome JsValue -> Proc)
                                                  (* await r.json() *)
| AwaitAll (a b : Proc) (k : Outcome unit -> Proc)
                                      (* await Promise.all([a(), b()]) *)
| Detached (a : Proc) (k : Proc).     (* a() with its promise dropped *)

(** try { p } catch (error) { h error } *)
Fixpoint try_catch (p : Proc) (h : string -> Proc) : Proc :=
  match p with
  | Ret => Ret
  | Throw err => h err
  | Do e k => Do e (try_catch k h)
  | AwaitFetch k => AwaitFetch (fun o => try_catch (k o) h)
  | AwaitJson r k => AwaitJson r (fun o => try_catch (k o) h)
  | AwaitAll a b k => AwaitAll a b (fun o => try_catch (k o) h)
  | Detached a k => Detached a (try_catch k h)
  end.

(** p finally { f }: [f] is given what follows it. *)
Fixpoint finally (p : Proc) (f : Proc -> Proc) : Proc :=
  match p with
  | Ret => f Ret
  | Throw err => f (Throw err)
  | Do e k => Do e (finally k f)
  | AwaitFetch k => AwaitFetch (fun o => finally (k o) f)
  | AwaitJson r k => AwaitJson r (fun o => finally (k o) f)
  | AwaitAll a b k => AwaitAll a b (fun o => finally (k o) f)
  | Detached a k => Detached a (finally k f)
  end.

(** [await] hands the value over, or throws the rejection. *)
Definition awaited {A : Type} (k : A -> Proc) (o : Outcome A) : Proc :=
  match o with
  | Returned a => k a
  | Thrown err => Throw err
  end.

(** How the function's own promise has settled, if it has. *)
Fixpoint result (p : Proc) : option (Outcome unit) :=
  match p with
  | Ret => Some (Returned tt)
  | Throw err => Some (Thrown err)
  | Detached _ k => result k
  | _ => None
  end.

(** Runs everything that can run without a settlement, leftmost first.
    Promise.all settles once both functions have returned, or as soon as
    one has thrown; the other one then goes on on its own. *)
Fixpoint sync (p : Proc) : list E * Proc :=
  match p with
  | Ret => ([], p)
  | Throw _ => ([], p)
  | Do e k => let (t, p') := sync k in (e :: t, p')
  | AwaitFetch _ => ([], p)
  | AwaitJson _ _ => ([], p)
  | AwaitAll a b k =>
      let (ta, a') := sync a in
      let (tb, b') := sync b in
      match result a', result b' with
      | Some (Thrown err), _ =>
          let (tk, k') := sync (k (Thrown err)) in
          (ta ++ tb ++ tk, Detached a' (Detached b' k'))
      | _, Some (Thrown err) =>
          let (tk, k') := sync (k (Thrown err)) in
          (ta ++ tb ++ tk, Detached a' (Detached b' k'))
      | Some (Returned _), Some (Returned _) =>
          let (tk, k') := sync (k (Returned tt)) in
          (ta ++ tb ++ tk, Detached a' (Detached b' k'))
      | _, _ => (ta ++ tb, AwaitAll a' b' k)
      end
  | Detached a k =>
      let (ta, a') := sync a in
      let (tk, k') := sync k in
      (ta ++ tk, Detached a' k')
  end.

(** The number of suspended awaits. *)
Fixpoint waiting (p : Proc) : nat :=
  match p with
  | Ret => 0
  | Throw _ => 0
  | Do _ k => waiting k
  | AwaitFetch _ => 1
  | AwaitJson _ _ => 1
  | AwaitAll a b _ => waiting a + waiting b
  | Detached a k => waiting a + waiting k
  end%nat.

(** Settles the [i]-th suspended await, counted from the left: a fetch
    with [o], a [json()] with the parse of its response. *)
Fixpoint resume (p : Proc) (i : nat) (o : Outcome Response) : Proc :=
  match p with
  | AwaitFetch k => k o
  | AwaitJson r k => k (json_of r)
  | AwaitAll a b k =>
      if Nat.ltb i (waiting a) then AwaitAll (resume a i o) b k
      else AwaitAll a (resume b (i - waiting a) o) k
  | Detached a k =>
      if Nat.ltb i (waiting a) then Detached (resume a i o) k
      else Detached a (resume k (i - waiting a) o)
  | _ => p
  end.

(** The environment: which await settles next, and with what. *)
Definition Settlement : Type := (nat * Outcome Response)%type.

Definition step (p : Proc) (c : Settlement) : list E * Proc :=
  if Nat.ltb (fst c) (waiting p) then sync (resume p (fst c) (snd c))
  else ([], p).

Fixpoint run (p : Proc) (sched : list Settlement) : list E * Proc :=
  match sched with
  | [] => ([], p)
  | c :: rest =>
      let (t, p') := step p c in
      let (t', p'') := run p' rest in
      (t ++ t', p'')
  end.

(** The call [p()] followed by the settlements of [sched]. *)
Definition call (p : Proc) (sched : list Settlement) : list E * Proc :=
  let (t, p') := sync p in
  let (t', p'') := run p' sched in
  (t ++ t', p'').

(** Whatever the settlements, [p] emits only effects that satisfy [Q] and
    no error leaves it. *)
Fixpoint steady (Q : E -> Prop) (p : Proc) : Prop :=
  match p with
  | Ret => True
  | Throw _ => False
  | Do e k => Q e /\ steady Q k
  | AwaitFetch k => forall o, steady Q (k o)
  | AwaitJson r k => steady Q (k (json_of r))
  | AwaitAll a b k => steady Q a /\ steady Q b /\ steady Q (k (Returned tt))
  | Detached a k => steady Q a /\ steady Q k
  end.

(** [p] awaits one promise after the other, at most [n] of them. *)
Fixpoint within (p : Proc) (n : nat) : Prop :=
  match p with
  | Ret => True
  | Throw _ => True
  | Do _ k => within k n
  | AwaitFetch k =>
      match n with
      | O => False
      | S m => forall o, within (k o) m
      end
  | AwaitJson _ k =>
      match n with
      | O => False
      | S m => forall o, within (k o) m
      end
  | AwaitAll _ _ _ => False
  | Detached _ _ => False
  end.

(** [p] is suspended on one await, or over. *)
Definition paused (p : Proc) : Prop :=
  match p with
  | Ret | Throw _ | AwaitFetch _ | AwaitJson _ _ => True
  | _ => False
  end.

(** A Promise.all still waiting for one of its two functions, which
    between them have at most [n] awaits to go. *)
Inductive joining (Q : E -> Prop) (k : Outcome unit -> Proc)
  : nat -> Proc -> Prop :=
| joining_intro (a b : Proc) (na nb n : nat) :
    within a na -> within b nb -> paused a -> paused b ->
    steady Q a -> steady Q b ->
    result a = None \/ result b = None ->
    (na + nb <= n)%nat ->
    joining Q k n (AwaitAll a b k).

(** The Promise.all has settled: both functions have returned, after
    effects [t1] of theirs, and what follows the [await] has run its
    effects [tk] and is over, as [kr]. *)
Definition joined (Q : E -> Prop) (tk : list E) (kr : Proc)
           (t : list E) (p : Proc) : Prop :=
  exists t1,
    Forall Q t1 /\ t = t1 ++ tk /\ p = Detached Ret (Detached Ret kr).

End Procs.

Arguments Ret {E}.
Arguments Throw {E} err.
Arguments Do {E} e k.
Arguments AwaitFetch {E} k.
Arguments AwaitJson {E} r k.
Arguments AwaitAll {E} a b k.
Arguments Detached {E} a k.
Arguments try_catch {E} p h.
Arguments finally {E} p f.
Arguments awaited {E A} k o.
Arguments result {E} p.
Arguments sync {E} p.
Arguments waiting {E} p.
Arguments resume {E} p i o.
Arguments step {E} p c.
Arguments run {E} p sched.
Arguments call {E} p sched.
Arguments steady {E} Q p.
Arguments within {E} p n.
Arguments paused {E} p.
Arguments joining {E} Q k _ _.
Arguments joined {E} Q tk kr t p.

End Async.

(** ** mobile/hooks/useTransactions.js *)

Module Hook.
Import Js Async.

Inductive Method : Type := GET | DELETE.

Inductive Effect : Type :=
| Fetch (m : Method) (url : string)        (* fetch(url, { method }) *)
| SetTransactions (data : JsValue)
| SetSummary (data : JsValue)
| SetIsLoading (b : bool)
| ConsoleError (label : string) (err : string)
| Alert (title : string) (msg : string).   (* Alert.alert(title, msg) *)

(** The state the hook holds. *)
Record State : Type := mkState {
  transactions : JsValue;
  summary : JsValue;
  isLoading : bool
}.

Definition initial : State :=
  mkState (JArr [])
          (JObj [("balance", JNum 0); ("income", JNum 0);
                 ("expense", JNum 0)])
          true.

Definition apply (st : State) (e : Effect) : State :=
  match e with
  | SetTransactions d => mkState d (summary st) (isLoading st)
  | SetSummary d => mkState (transactions st) d (isLoading st)
  | SetIsLoading b => mkState (transactions st) (summary st) b
  | _ => st
  end.

Definition apply_all (st : State) (t : list Effect) : State :=
  fold_left apply t st.

Definition API_URL : string := "https://rn-wallet-szfl.onrender.com/api".

(** The effects of the two fetch functions: their request, their state
    update, their logging. *)
Definition fetcher_effect (e : Effect) : Prop :=
  match e with
  | Fetch GET _ => True
  | SetTransactions _ => True
  | SetSummary _ => True
  | ConsoleError label _ => label = "Error fetching transactions"
  | _ => False
  end.

(** [await fetch(url, { method })] *)
Definition fetch (m : Method) (url : string)
           (k : Response -> Proc Effect) : Proc Effect :=
  Do (Fetch m url) (AwaitFetch (awaited k)).

(** [await response.json()] *)
Definition json (r : Response) (k : JsValue -> Proc Effect) : Proc Effect :=
  AwaitJson r (awaited k).

Section WithUser.

Variable userId : option string.

(** lines 18-26 *)
Definition fetchTransaction : Proc Effect :=
  try_catch
    (fetch GET (API_URL ++ "/transactions/" ++ text userId) (fun response =>
     json response (fun data =>
     Do (SetTransactions data) Ret)))
    (fun error => Do (ConsoleError "Error fetching transactions" error) Ret).

(** lines 28-36 *)
Definition fetchSummary : Proc Effect :=
  try_catch
    (fetch GET (API_URL ++ "/transactions/summary/" ++ text userId)
       (fun response =>
     json response (fun data =>
     Do (SetSummary data) Ret)))
    (fun error => Do (ConsoleError "Error fetching transactions" error) Ret).

(** lines 38-55 *)
Definition loadData : Proc Effect :=
  if Js.not (of_option userId) then Ret
  else
    Do (SetIsLoading true)
      (finally
         (try_catch
            (AwaitAll fetchTransaction fetchSummary (awaited (fun _ => Ret)))
            (fun error => Do (ConsoleError "Error loading data" error) Ret))
         (Do (SetIsLoading false))).

(** What follows the [await] of [loadData]: the rest of its [try], its
    [catch] and its [finally]. *)
Definition after_all : Outcome unit -> Proc Effect :=
  fun o =>
    finally
      (try_catch
         (awaited (fun _ => Ret) o)
         (fun error => Do (ConsoleError "Error loading data" error) Ret))
      (Do (SetIsLoading false)).

(** lines 57-71 *)
Definition deleteTransactions (id : string) : Proc Effect :=
  try_catch
    (fetch DELETE (API_URL ++ "/transactions/" ++ id) (fun response =>
     if negb (ok response) then Throw "Failed to delete transaction"
     else
       Detached loadData
         (Do (Alert "Success" "Transaction deleted successfully") Ret)))
    (fun error =>
       Do (ConsoleError "Error deleting transaction" error)
         (Do (Alert "Error" error) Ret)).

End WithUser.

End Hook.

(** ** The other handlers of part_001 *)

Module Crud.
Import Js Controller.

(** The [db] object of part_001 (lines 240-249): its five operations, each
    run against the store state [St]. *)
Record Db (St : Type) : Type := mkDb {
  findById : JsValue -> St -> Outcome JsValue * St;
  findByUserId : JsValue -> JsValue -> St -> Outcome JsValue * St;
  create : Store.NewItem -> St -> Outcome JsValue * St;
  updateById : JsValue -> JsValue -> St -> Outcome JsValue * St;
  deleteById : JsValue -> St -> Outcome JsValue * St
}.

Arguments findById {St} d _ _.
Arguments findByUserId {St} d _ _ _.
Arguments create {St} d _ _.
Arguments updateById {St} d _ _ _.
Arguments deleteById {St} d _ _.

(** [Object.keys(v).length]; [None] when [Object.keys] throws. *)
Definition keys_length (v : JsValue) : option nat :=
  match v with
  | JUndefined => None
  | JNull => None
  | JBool _ => Some O
  | JNum _ => Some O
  | JStr s => Some (String.length s)
  | JArr items => Some (List.length items)
  | JObj fields => Some (List.length fields)
  end.

Section WithDb.

Variable St : Type.
Variable db : Db St.

(** part_001, lines 19-38.  [params_id] is [req.params.id]. *)
Definition getItemById (params_id : option string) (s : St) : Reply * St :=
  let id := of_option params_id in
  if Js.not id
  then (respond 400 (message "Item ID is required"), s)
  else
    match findById db id s with
    | (Returned item, s') =>
        if Js.not item
        then (respond 404 (message "Item not found"), s')
        else (respond 200 item, s')
    | (Thrown _, s') => (internal_error "Error fetching item:", s')
    end.

(** part_001, lines 43-59.  [params_userId] is [req.params.userId],
    [query] is [req.query]. *)
Definition getItemsByUserId (params_userId : option string)
           (query : JsValue) (s : St) : Reply * St :=
  let userId := of_option params_userId in
  match query with
  | JUndefined | JNull =>
      (* nothing to destructure: the TypeError lands in the catch *)
      (internal_error "Error fetching items:", s)
  | _ =>
  let limit := get query "limit" in
  let offset := get query "offset" in
  if Js.not userId
  then (respond 400 (message "User ID is required"), s)
  else
    match findByUserId db userId
            (JObj [("limit", limit); ("offset", offset)]) s with
    | (Returned items, s') => (respond 200 items, s')
    | (Thrown _, s') => (internal_error "Error fetching items:", s')
    end
  end.

(** part_001, lines 118-148. *)
Definition updateItem (params_id : option string) (req_body : JsValue)
           (s : St) : Reply * St :=
  let id := of_option params_id in
  match req_body with
  | JUndefined | JNull =>
      (* nothing to destructure: the TypeError lands in the catch *)
      (internal_error "Error updating item:", s)
  | _ =>
  let title := get req_body "title" in
  let amount := get req_body "amount" in
  let category := get req_body "category" in
  if Js.not id
  then (respond 400 (message "Item ID is required"), s)
  else if (Js.not title || is_undefined amount || Js.not category)%bool
  then (respond 400
          (message "All fields are required: title, amount, category"),
        s)
  else
    match updateById db id
            (JObj [("title", title); ("amount", amount);
                   ("category", category)]) s with
    | (Returned updatedItem, s') =>
        if Js.not updatedItem
        then (respond 404 (message "Item not found"), s')
        else (respond 200 updatedItem, s')
    | (Thrown _, s') => (internal_error "Error updating item:", s')
    end
  end.

(** part_001, lines 153-177. *)
Definition patchItem (params_id : option string) (req_body : JsValue)
           (s : St) : Reply * St :=
  let id := of_option params_id in
  let updateData := req_body in
  if Js.not id
  then (respond 400 (message "Item ID is required"), s)
  else
    match keys_length updateData with
    | None => (internal_error "Error patching item:", s)
    | Some O =>
        (respond 400 (message "At least one field is required for update"),
         s)
    | Some (S _) =>
        match updateById db id updateData s with
        | (Returned updatedItem, s') =>
            if Js.not updatedItem
            then (respond 404 (message "Item not found"), s')
            else (respond 200 updatedItem, s')
        | (Thrown _, s') => (internal_error "Error patching item:", s')
        end
    end.

(** The six handlers of part_001 and what each reads of the request. *)
Inductive Call : Type :=
| GetItemById (params_id : option string)
| GetItemsByUserId (params_userId : option string) (query : JsValue)
| CreateItem (req_body : JsValue)
| UpdateItem (params_id : option string) (req_body : JsValue)
| PatchItem (params_id : option string) (req_body : JsValue)
| DeleteItem (params_id : option string).

Definition serve (c : Call) (s : St) : Reply * St :=
  match c with
  | GetItemById i => getItemById i s
  | GetItemsByUserId u q => getItemsByUserId u q s
  | CreateItem b => createItem St (create db) b s
  | UpdateItem i b => updateItem i b s
  | PatchItem i b => patchItem i b s
  | DeleteItem i => deleteItem St (deleteById db) i s
  end.

End WithDb.

Arguments getItemById {St} db params_id s.
Arguments getItemsByUserId {St} db params_userId query s.
Arguments updateItem {St} db params_id req_body s.
Arguments patchItem {St} db params_id req_body s.
Arguments serve {St} db c s.

(** The reply a handler builds from the store's answer to a lookup,
    update or deletion of one item. *)
Definition item_reply {St : Type} (label : string) (wrap : JsValue -> JsValue)
           (r : Outcome JsValue * St) : Reply * St :=
  match r with
  | (Returned item, s') =>
      if Js.not item
      then (respond 404 (message "Item not found"), s')
      else (respond 200 (wrap item), s')
  | (Thrown _, s') => (internal_error label, s')
  end.

(** The status codes part_001 lists (lines 226-230). *)
Definition documented_status : list Z := [200; 201; 400; 404; 500].

(** A [db] whose every operation fails. *)
Definition failing : Db unit :=
  mkDb unit
       (fun _ s => (Thrown "connection refused", s))
       (fun _ _ s => (Thrown "connection refused", s))
       (fun _ s => (Thrown "connection refused", s))
       (fun _ _ s => (Thrown "connection refused", s))
       (fun _ s => (Thrown "connection refused", s)).

End Crud.

(** ** backend/src/server.js *)

Module Server.
Import Js.

(** What the application does with one request: the effects of the rate
    limiter, then those of what is registered after it. *)
Inductive Effect : Type :=
| Limiter (e : RateLimiter.Effect)
| ParseJson                                (* express.json() runs *)
| Health (code : Z) (body : JsValue)       (* the handler of lines 20-22 *)
| Routed (what : list string)              (* the transactions router runs *)
| Unmatched                                (* no route matches *)
| ErrorHandler (err : string).             (* the error handler runs *)

Section App.

Variable limit : JsValue -> Outcome bool.          (* ratelimit.limit *)
Variable parse_json : RateLimiter.Request -> Outcome JsValue.
                                                   (* express.json() *)
Variable is_health : RateLimiter.Request -> bool.
                                        (* GET, path matching /api/health *)
Variable is_transactions : RateLimiter.Request -> bool.
                                        (* path under /api/transactions *)
Variable transactions_route : RateLimiter.Request -> JsValue -> list string.

(** The handler of lines 20-22. *)
Definition health : Effect := Health 200 (JObj [("status", JStr "ok")]).

(** What runs once the rate limiter has called [next()]: the body parser,
    then the first registration that matches. *)
Definition after_limiter (req : RateLimiter.Request) : list Effect :=
  ParseJson ::
  match parse_json req with
  | Thrown err => [ErrorHandler err]
  | Returned body =>
      if is_health req then [health]
      else if is_transactions req
           then [Routed (transactions_route req body)]
           else [Unmatched]
  end.

(** [next()] hands over to what is registered next, [next(error)] to the
    error handler. *)
Fixpoint continue (req : RateLimiter.Request) (t : list RateLimiter.Effect)
  : list Effect :=
  match t with
  | [] => []
  | RateLimiter.Next :: rest =>
      (Limiter RateLimiter.Next :: after_limiter req ++ continue req rest)%list
  | RateLimiter.NextError err :: rest =>
      Limiter (RateLimiter.NextError err) :: ErrorHandler err
      :: continue req rest
  | e :: rest => Limiter e :: continue req rest
  end.

(** The application of lines 15-24 on one request. *)
Definition app (req : RateLimiter.Request) : list Effect :=
  continue req (RateLimiter.rateLimiter limit req).

End App.

End Server.

(** ** Uses of the hook *)

Module HookUse.
Import Js Async Hook.
Local Open Scope list_scope.
Local Open Scope nat_scope.

(** The effects of [fetchTransaction]: its request, the update of the
    transactions, its logging. *)
Definition list_effect (e : Effect) : Prop :=
  match e with
  | Fetch GET _ => True
  | SetTransactions _ => True
  | ConsoleError _ _ => True
  | _ => False
  end.

(** The effects of [fetchSummary]. *)
Definition summary_effect (e : Effect) : Prop :=
  match e with
  | Fetch GET _ => True
  | SetSummary _ => True
  | ConsoleError _ _ => True
  | _ => False
  end.

(** Effects that show nothing to the user and ask the server for no
    change: no alert, no DELETE request. *)
Definition silent (e : Effect) : Prop :=
  match e with
  | Alert _ _ => False
  | Fetch DELETE _ => False
  | _ => True
  end.

(** The number of alerts shown. *)
Fixpoint alerts (t : list Effect) : nat :=
  match t with
  | [] => 0
  | Alert _ _ :: rest => S (alerts rest)
  | _ :: rest => alerts rest
  end.

(** The six orders in which the four awaits of [loadData] can settle when
    the list request is answered [r1] and the summary request [r2]: the
    [fetch] of each function before its [json()].  The list function is
    the left one; once it is over the summary function is the leftmost. *)
Definition interleavings (r1 r2 : Response) (o : Outcome Response)
  : list (list Settlement) :=
  [ [(0, Returned r1); (0, o); (0, Returned r2); (0, o)];
    [(0, Returned r1); (1, Returned r2); (0, o); (0, o)];
    [(0, Returned r1); (1, Returned r2); (1, o); (0, o)];
    [(1, Returned r2); (0, Returned r1); (0, o); (0, o)];
    [(1, Returned r2); (0, Returned r1); (1, o); (0, o)];
    [(1, Returned r2); (1, o); (0, Returned r1); (0, o)] ].

(** [loadData(); loadData()]: a second call while the first is under
    way. *)
Definition loadData_twice (userId : option string) : Proc Effect :=
  Detached (loadData userId) (loadData userId).

End HookUse.

(* ================================================================== *)
(** * Part II: properties *)
(* ================================================================== *)

(** ** Strings *)

Module JsFacts.
Import Js.

Lemma split_head_first_token (sep : ascii) (h : string) :
  exists tok toks, split sep h = tok :: toks /\ first_token sep h tok.
Proof.
  induction h as [|c r IH]; simpl.
  - exists EmptyString, []. repeat split. now left.
  - destruct (Ascii.eqb c sep) eqn:Hc.
    + apply Ascii.eqb_eq in Hc; subst c.
      exists EmptyString, (split sep r). repeat split.
      right. now exists r.
    + destruct IH as (tok & toks & Hs & Hno & Hh).
      rewrite Hs. exists (String c tok), toks. split; [reflexivity|].
      split.
      * simpl. now rewrite Hc, Hno.
      * destruct Hh as [-> | [rest ->]]; [now left|right].
        now exists rest.
Qed.

Lemma trimStart_spec (s : string) :
  exists pre,
    s = pre ++ trimStart s /\ all_white pre = true /\
    starts_white (trimStart s) = false.
Proof.
  induction s as [|c r (pre & Hs & Hpre & Hk)]; simpl.
  - now exists EmptyString.
  - destruct (is_white_space c) eqn:Hc.
    + exists (String c pre). simpl. rewrite Hc, Hpre, <- Hs. auto.
    + exists EmptyString. simpl. auto.
Qed.

Lemma trimEnd_spec (s : string) :
  exists post,
    s = trimEnd s ++ post /\ all_white post = true /\
    ends_white (trimEnd s) = false.
Proof.
  induction s as [|c r (post & Hs & Hpost & Hk)]; simpl.
  - now exists EmptyString.
  - destruct (trimEnd r) as [|d r'] eqn:Hr.
    + simpl in Hs. subst r.
      destruct (is_white_space c) eqn:Hc.
      * exists (String c post). simpl. now rewrite Hc, Hpost.
      * exists post. simpl. now rewrite Hc.
    + exists post. simpl. rewrite Hs at 1. simpl.
      repeat split; auto.
Qed.

Lemma trimEnd_keeps_start (s : string) :
  starts_white s = false -> starts_white (trimEnd s) = false.
Proof.
  destruct s as [|c r]; simpl; auto.
  intros Hc. destruct (trimEnd r); simpl; rewrite ?Hc; auto.
Qed.

Lemma trim_spec (tok : string) : trimmed_of tok (trim tok).
Proof.
  unfold trim, trimmed_of.
  destruct (trimStart_spec tok) as (pre & Hs & Hpre & Hk).
  destruct (trimEnd_spec (trimStart tok)) as (post & Hs' & Hpost & Hk').
  exists pre, post. repeat split; auto.
  - now rewrite <- Hs'.
  - now apply trimEnd_keeps_start.
Qed.

End JsFacts.

(** ** The rate limiter *)

Module RateLimiterFacts.
Import Js RateLimiter JsFacts.

Lemma client_key_forwarded (req : Request) (h : string) :
  x_forwarded_for req = Some h ->
  exists tok,
    first_token "," h tok /\ client_key req = Returned (JStr (trim tok)).
Proof.
  intros Hh. unfold client_key. rewrite Hh. simpl.
  destruct (split_head_first_token "," h) as (tok & toks & Hs & Hft).
  rewrite Hs. simpl. now exists tok.
Qed.

Lemma or_same_or_undefined (a b : JsValue) :
  a = JUndefined \/ a = b -> or a b = b.
Proof.
  unfold or. intros [-> | ->]; simpl; auto. now destruct (truthy b).
Qed.

Lemma client_key_returns (req : Request) :
  exists key, client_key req = Returned key.
Proof.
  destruct (x_forwarded_for req) as [h|] eqn:Hh.
  - destruct (client_key_forwarded req h Hh) as (tok & _ & Hkey); eauto.
  - unfold client_key. rewrite Hh. simpl. eauto.
Qed.

(** C4: the key handed to the limiter.  With a forwarded-for header it is
    the first comma-separated token of the header, trimmed; without one it
    is the peer address: [req.ip], or the socket's remote address when
    [req.ip] is missing (and so the remote address itself whenever [req.ip]
    is missing or repeats it). *)
Theorem rateLimiter_client_key (limit : JsValue -> Outcome bool)
        (req : Request) :
  exists key,
    client_key req = Returned key /\
    (exists rest, rateLimiter limit req = LimitCall key :: rest) /\
    match x_forwarded_for req with
    | Some h =>
        exists tok k,
          first_token "," h tok /\ trimmed_of tok k /\ key = JStr k
    | None =>
        key = or (ip req) (remoteAddress req) /\
        (ip req = JUndefined \/ ip req = remoteAddress req ->
         key = remoteAddress req)
    end.
Proof.
  destruct (x_forwarded_for req) as [h|] eqn:Hh.
  - destruct (client_key_forwarded req h Hh) as (tok & Hft & Hkey).
    exists (JStr (trim tok)). split; [exact Hkey|]. split.
    + unfold rateLimiter. rewrite Hkey. eauto.
    + exists tok, (trim tok). auto using trim_spec.
  - assert (Hkey : client_key req = Returned (or (ip req) (remoteAddress req))).
    { unfold client_key. now rewrite Hh. }
    exists (or (ip req) (remoteAddress req)). split; [exact Hkey|]. split.
    + unfold rateLimiter. rewrite Hkey. eauto.
    + split; [reflexivity|]. apply or_same_or_undefined.
Qed.

(** C5: what the middleware does with the limiter's answer.  A refusal
    ([success] false) is answered with status 429 and the fixed message,
    and [next] is not called; an admission calls [next()] and nothing
    else; a failing limiter call is logged and handed to the error handler
    through [next(error)], without a response and without [next()]. *)
Theorem rateLimiter_outcomes (limit : JsValue -> Outcome bool)
        (req : Request) :
  exists key,
    client_key req = Returned key /\
    match limit key with
    | Returned false =>
        rateLimiter limit req =
        [LimitCall key; ResStatus 429;
         ResJson (JObj [("message",
                         JStr "Too many requests, please try again later.")])]
    | Returned true => rateLimiter limit req = [LimitCall key; Next]
    | Thrown err =>
        rateLimiter limit req =
        [LimitCall key; ConsoleError "Rate limiter error:" err; NextError err]
    end.
Proof.
  destruct (client_key_returns req) as (key & Hkey).
  exists key. split; [exact Hkey|].
  unfold rateLimiter. rewrite Hkey.
  destruct (limit key) as [[|]|err]; reflexivity.
Qed.

End RateLimiterFacts.

(** ** The transaction store and the read operations *)

Module StoreFacts.
Import Js Store Controller.
Local Open Scope Q_scope.

Lemma sum_where_acc (p : Transaction -> bool) (l : list Transaction)
      (acc : option Q) :
  coalesce
    (fold_left
       (fun acc r =>
          if p r then
            match acc with
            | None => Some (amount r)
            | Some a => Some (a + amount r)
            end
          else acc)
       l acc) 0
  == coalesce acc 0 + total (filter p l).
Proof.
  revert acc. induction l as [|r l IH]; intros acc; simpl.
  - ring.
  - destruct (p r); rewrite IH; simpl; [|reflexivity].
    destruct acc; simpl; ring.
Qed.

Lemma sum_where_total (p : Transaction -> bool) (l : list Transaction) :
  coalesce (sum_where p l) 0 == total (filter p l).
Proof.
  unfold sum_where. rewrite sum_where_acc. simpl. ring.
Qed.

Lemma sum_where_none (p : Transaction -> bool) (l : list Transaction) :
  filter p l = [] -> sum_where p l = None.
Proof.
  unfold sum_where. generalize (@None Q).
  induction l as [|r l IH]; intros acc; simpl; auto.
  destruct (p r); [discriminate|]. apply IH.
Qed.

Lemma filter_and (p q : Transaction -> bool) (l : list Transaction) :
  filter (fun r => p r && q r)%bool l = filter q (filter p l).
Proof.
  induction l as [|r l IH]; simpl; auto.
  destruct (p r); simpl; [destruct (q r)|]; congruence.
Qed.

Lemma total_nonpos (l : list Transaction) :
  Forall (fun r => is_expense r = true) l -> total l <= 0.
Proof.
  induction 1 as [|r l Hr _ IH]; simpl; [apply Qle_refl|].
  unfold is_expense in Hr.
  destruct (amount r ?= 0) eqn:Hc; try discriminate.
  rewrite <- Qlt_alt in Hc.
  replace 0 with (0 + 0) by reflexivity.
  apply Qplus_le_compat; auto using Qlt_le_weak.
Qed.

Lemma total_nonneg (l : list Transaction) :
  Forall (fun r => is_income r = true) l -> 0 <= total l.
Proof.
  induction 1 as [|r l Hr _ IH]; simpl; [apply Qle_refl|].
  unfold is_income in Hr.
  destruct (0 ?= amount r) eqn:Hc; try discriminate.
  rewrite <- Qlt_alt in Hc.
  replace 0 with (0 + 0) by reflexivity.
  apply Qplus_le_compat; auto using Qlt_le_weak.
Qed.

Lemma Forall_filter_true (p : Transaction -> bool) (l : list Transaction) :
  Forall (fun r => p r = true) (filter p l).
Proof.
  apply Forall_forall. intros r Hr. now apply filter_In in Hr.
Qed.

(** Every amount is positive, negative or zero, so the positive and the
    negative ones add up to the total. *)
Lemma total_split (l : list Transaction) :
  total l == total (filter is_income l) + total (filter is_expense l).
Proof.
  induction l as [|r l IH]; simpl; [reflexivity|].
  assert (Hsign : (is_income r = true /\ is_expense r = false) \/
                  (is_income r = false /\ is_expense r = true) \/
                  (is_income r = false /\ is_expense r = false /\
                   amount r == 0)).
  { unfold is_income, is_expense.
    destruct (Qcompare_spec 0 (amount r)) as [He|Hlt|Hgt].
    - right; right. symmetry in He.
      rewrite (proj1 (Qeq_alt _ _) He). auto.
    - left. rewrite (proj1 (Qgt_alt _ _) Hlt). auto.
    - right; left. rewrite (proj1 (Qlt_alt _ _) Hgt). auto. }
  destruct Hsign as [[-> ->]|[[-> ->]|(-> & -> & Hz)]]; simpl;
    rewrite IH; try rewrite Hz; ring.
Qed.

(** The scenario of the specification: user 1 has B, then A; the summary
    of user 1 is 70, 100 and -30, that of user 2 is 50, 50 and 0. *)
Example scenario_listing :
  select_by_user "1" scenario =
  [mkTransaction 2 "1" "B" (-30) "food" 1;
   mkTransaction 1 "1" "A" 100 "salary" 0].
Proof. reflexivity. Qed.

Example scenario_summaries :
  summary_of "1" scenario = mkSummary 70 100 (-30) /\
  summary_of "2" scenario = mkSummary 50 50 0.
Proof. split; reflexivity. Qed.

(** C1: the summary of a user.  [balance] is the sum of the amounts of the
    user's transactions, [income] the sum of the positive ones and
    [expense] the sum of the negative ones (so [expense] is never positive
    and [balance] is [income + expense]); the reply is 200 with the three;
    a user without transactions gets three zeros. *)
Theorem Summary_sums (u : string) (s : Store.t) :
  let mine := transactions_of u s in
  let t := summary_of u s in
  balance t == total mine /\
  income t == total (filter is_income mine) /\
  expense t == total (filter is_expense mine) /\
  balance t == income t + expense t /\
  0 <= income t /\ expense t <= 0 /\
  Summary u s =
    respond 200 (JObj [("balance", JNum (balance t));
                       ("income", JNum (income t));
                       ("expense", JNum (expense t))]) /\
  (mine = [] ->
   Summary u s =
     respond 200 (JObj [("balance", JNum 0); ("income", JNum 0);
                        ("expense", JNum 0)])).
Proof.
  intros mine t.
  assert (Hb : balance t == total mine) by apply sum_where_total.
  assert (Hi : income t == total (filter is_income mine)).
  { unfold t, summary_of; simpl. rewrite sum_where_total.
    now rewrite filter_and. }
  assert (He : expense t == total (filter is_expense mine)).
  { unfold t, summary_of; simpl. rewrite sum_where_total.
    now rewrite filter_and. }
  repeat split; auto.
  - rewrite Hb, Hi, He. apply total_split.
  - rewrite Hi. apply total_nonneg, Forall_filter_true.
  - rewrite He. apply total_nonpos, Forall_filter_true.
  - intros Hnil. unfold Summary, summary_of.
    fold (transactions_of u s) in *.
    rewrite !sum_where_none; auto.
    + rewrite filter_and. fold (transactions_of u s). fold mine.
      now rewrite Hnil.
    + rewrite filter_and. fold (transactions_of u s). fold mine.
      now rewrite Hnil.
Qed.

Lemma insert_desc_perm (r : Transaction) (l : list Transaction) :
  Permutation (insert_desc r l) (r :: l).
Proof.
  induction l as [|x l IH]; simpl; auto.
  destruct (newer_or_same r x); auto.
  rewrite IH. apply perm_swap.
Qed.

Lemma order_by_perm (l : list Transaction) :
  Permutation (order_by_createdAt_desc l) l.
Proof.
  induction l as [|r l IH]; simpl; auto.
  rewrite insert_desc_perm. now constructor.
Qed.

Lemma insert_desc_sorted (r : Transaction) (l : list Transaction) :
  descending l -> descending (insert_desc r l).
Proof.
  unfold descending.
  induction 1 as [|x l Hl IH Hx]; simpl.
  - repeat constructor.
  - unfold newer_or_same. destruct (Z.leb_spec (createdAt x) (createdAt r)).
    + constructor; [now constructor|].
      constructor; auto.
      eapply Forall_impl; [|exact Hx]. simpl. intros; lia.
    + constructor; auto.
      eapply Permutation_Forall; [symmetry; apply insert_desc_perm|].
      constructor; auto. lia.
Qed.

Lemma order_by_sorted (l : list Transaction) :
  descending (order_by_createdAt_desc l).
Proof.
  induction l as [|r l IH]; simpl.
  - constructor.
  - now apply insert_desc_sorted.
Qed.

(** C6: the listing of a user.  The reply is 200 with exactly the user's
    transactions (each as often as the table holds it, none of another
    user), most recent first; for a user without transactions it is 200
    with the empty sequence. *)
Theorem ListByUser_ordered (u : string) (s : Store.t) :
  let listed := select_by_user u s in
  ListByUser u s = respond 200 (JArr (map to_json listed)) /\
  Permutation listed (transactions_of u s) /\
  (forall r, In r listed <-> In r (rows s) /\ userId r = u) /\
  descending listed /\
  (transactions_of u s = [] -> ListByUser u s = respond 200 (JArr [])).
Proof.
  intros listed.
  assert (Hperm : Permutation listed (transactions_of u s))
    by apply order_by_perm.
  split; [reflexivity|]. split; [exact Hperm|]. split; [|split].
  - intros r. split.
    + intros Hin. eapply Permutation_in in Hin; [|exact Hperm].
      apply filter_In in Hin. destruct Hin as [Hin Hu].
      split; auto. now apply String.eqb_eq.
    + intros [Hin Hu]. eapply Permutation_in; [symmetry; exact Hperm|].
      apply filter_In. split; auto. now apply String.eqb_eq.
  - apply order_by_sorted.
  - intros Hnil. unfold ListByUser, select_by_user.
    fold (transactions_of u s). now rewrite Hnil.
Qed.

End StoreFacts.

(** ** The write operations *)

Module ControllerFacts.
Import Js Store Controller JsFacts.
Local Open Scope list_scope.

Lemma truthy_false_blank (v : JsValue) : truthy v = false <-> blank v.
Proof.
  unfold blank. split.
  - intros H. destruct v as [| |b|q|x|l|f]; simpl in H; try discriminate.
    + now left.
    + now right; left.
    + subst b. now right; right; right; left.
    + apply negb_false_iff, Qeq_bool_iff in H.
      right; right; right; right. now exists q.
    + apply negb_false_iff, String.eqb_eq in H. subst x.
      now right; right; left.
  - intros [H|[H|[H|[H|(q & H & Hz)]]]]; subst v; simpl; auto.
    now apply negb_false_iff, Qeq_bool_iff.
Qed.

Lemma nonempty_truthy (x : string) : x <> "" -> truthy (JStr x) = true.
Proof.
  intros Hx. simpl. apply negb_true_iff. now apply String.eqb_neq.
Qed.

Lemma typeof_number (v : JsValue) :
  JsType_eqb (typeof v) TNumber = true <-> exists q, v = JNum q.
Proof.
  destruct v; simpl; split; try discriminate; eauto;
    intros [q H]; discriminate.
Qed.

Section AnyDb.

Variable St : Type.
Variable db_create : NewItem -> St -> Outcome JsValue * St.
Variable db_deleteById : JsValue -> St -> Outcome JsValue * St.

(** A request that fails validation is answered 400 and the store is not
    called. *)
Lemma createItem_rejected (fields : list (string * JsValue)) (s : St) :
  blank (get (JObj fields) "userId") \/ blank (get (JObj fields) "title") \/
  blank (get (JObj fields) "category") \/
  get (JObj fields) "amount" = JUndefined \/
  typeof (get (JObj fields) "amount") <> TNumber ->
  exists m,
    createItem St db_create (JObj fields) s = (respond 400 (message m), s).
Proof.
  intros H. unfold createItem. cbv beta iota zeta.
  destruct (Js.not (get (JObj fields) "userId")
            || Js.not (get (JObj fields) "title")
            || is_undefined (get (JObj fields) "amount")
            || Js.not (get (JObj fields) "category"))%bool eqn:Hg; [eauto|].
  apply orb_false_iff in Hg. destruct Hg as [Hg Hc].
  apply orb_false_iff in Hg. destruct Hg as [Hg Ha].
  apply orb_false_iff in Hg. destruct Hg as [Hu Ht].
  unfold Js.not in *. rewrite negb_false_iff in Hu, Ht, Hc.
  destruct H as [H|[H|[H|[H|H]]]].
  - apply truthy_false_blank in H. congruence.
  - apply truthy_false_blank in H. congruence.
  - apply truthy_false_blank in H. congruence.
  - rewrite H in Ha. discriminate.
  - destruct (JsType_eqb (typeof (get (JObj fields) "amount")) TNumber)
      eqn:Hn; simpl; [|eauto].
    apply typeof_number in Hn. destruct Hn as [q Hq].
    rewrite Hq in H. now elim H.
Qed.

(** A request that passes validation reaches the store once, with the
    four values of the body; the reply is 201 with what the store hands
    back, 500 when the store fails. *)
Lemma createItem_accepted (fields : list (string * JsValue)) (s : St) :
  truthy (get (JObj fields) "userId") = true ->
  truthy (get (JObj fields) "title") = true ->
  truthy (get (JObj fields) "category") = true ->
  (exists q, get (JObj fields) "amount" = JNum q) ->
  createItem St db_create (JObj fields) s =
  match db_create (mkNewItem (get (JObj fields) "userId")
                             (get (JObj fields) "title")
                             (get (JObj fields) "amount")
                             (get (JObj fields) "category")) s with
  | (Returned newItem, s') => (respond 201 newItem, s')
  | (Thrown _, s') => (internal_error "Error creating item:", s')
  end.
Proof.
  intros Hu Ht Hc [q Ha]. unfold createItem. cbv beta iota zeta.
  unfold Js.not. rewrite Hu, Ht, Hc, Ha. reflexivity.
Qed.


(** An id that passes validation reaches the store; the reply is the
    store's answer: 404 for a falsy one, 200 with the deleted item
    otherwise, 500 when the store fails. *)
Lemma deleteItem_passed (x : string) (n : Z) (s : St) :
  x <> "" -> parseInt x = Some n ->
  deleteItem St db_deleteById (Some x) s =
  match db_deleteById (JStr x) s with
  | (Returned deletedItem, s') =>
      if Js.not deletedItem
      then (respond 404 (message "Item not found"), s')
      else (respond 200
              (JObj [("message", JStr "Item deleted successfully");
                     ("deletedItem", deletedItem)]),
            s')
  | (Thrown _, s') => (internal_error "Error deleting item:", s')
  end.
Proof.
  intros Hx Hn. unfold deleteItem, Js.not, isNaN_parseInt. simpl.
  apply String.eqb_neq in Hx. rewrite Hx, Hn. reflexivity.
Qed.

Lemma deleteItem_passed_status (x : string) (n : Z) (s : St) :
  x <> "" -> parseInt x = Some n ->
  status (fst (deleteItem St db_deleteById (Some x) s)) <> 400.
Proof.
  intros Hx Hn. rewrite (deleteItem_passed x n s Hx Hn).
  destruct (db_deleteById (JStr x) s) as [[d|e] s']; simpl;
    [destruct (Js.not d); simpl|]; discriminate.
Qed.

End AnyDb.

(** Insertion keeps the identifiers unique, and the new one is fresh. *)
Lemma create_wf (item : NewItem) (s : Store.t) :
  wf s -> wf (snd (create item s)).
Proof.
  intros Hwf. pose proof Hwf as [Hnd Hlt]. unfold create.
  destruct (as_text (new_userId item)); [|exact Hwf].
  destruct (as_text (new_title item)); [|exact Hwf].
  destruct (as_numeric (new_amount item)); [|exact Hwf].
  destruct (as_text (new_category item)); [|exact Hwf].
  split; simpl.
  - rewrite map_app. simpl. apply NoDup_app; auto.
    + repeat constructor. simpl. tauto.
    + intros x Hx [<-|[]]. apply in_map_iff in Hx.
      destruct Hx as (r & Hr & Hin).
      rewrite Forall_forall in Hlt. specialize (Hlt r Hin). lia.
  - apply Forall_app. split.
    + eapply Forall_impl; [|exact Hlt]. simpl. intros; lia.
    + repeat constructor. simpl. lia.
Qed.

Lemma fresh_next_id (s : Store.t) :
  wf s -> ~ In (next_id s) (map id (rows s)).
Proof.
  intros [_ Hlt] Hin. apply in_map_iff in Hin.
  destruct Hin as (r & Hr & Hin).
  rewrite Forall_forall in Hlt. specialize (Hlt r Hin). lia.
Qed.

Lemma digit_not_white (c : ascii) (d : Z) :
  digit_value c = Some d -> is_white_space c = false.
Proof.
  unfold digit_value, is_white_space.
  destruct (Nat.leb 48 (nat_of_ascii c) && Nat.leb (nat_of_ascii c) 57)%bool
    eqn:H; [|discriminate].
  intros _. apply andb_true_iff in H. destruct H as [H1 H2].
  apply Nat.leb_le in H1, H2.
  repeat (apply orb_false_intro); apply Nat.eqb_neq; lia.
Qed.

Lemma all_digits_decimal (body : string) :
  all_digits body = true ->
  parse_magnitude body = read_digits 10 digit_value body 0 false.
Proof.
  destruct body as [|c1 [|c2 r]]; auto.
  intros H. unfold parse_magnitude.
  destruct (Ascii.eqb c1 "0" && (Ascii.eqb c2 "x" || Ascii.eqb c2 "X"))%bool
    eqn:E; auto.
  exfalso. apply andb_true_iff in E. destruct E as [_ E].
  simpl in H. destruct (digit_value c1); try discriminate.
  apply orb_true_iff in E.
  destruct E as [E|E]; apply Ascii.eqb_eq in E; subst c2; discriminate.
Qed.

(** A decimal numeral passes the validation of [deleteItem], and
    [parseInt] reads the integer it denotes. *)
Lemma numeral_parseInt (x : string) (n : Z) :
  numeral_value x = Some n -> x <> "" /\ parseInt x = Some n.
Proof.
  unfold numeral_value, is_numeral. destruct x as [|c r].
  - simpl. discriminate.
  - intros H. split; [discriminate|].
    assert (Hw : is_white_space c = false).
    { unfold strip_sign in H.
      destruct (Ascii.eqb c "-") eqn:Em.
      - apply Ascii.eqb_eq in Em. now subst c.
      - destruct (Ascii.eqb c "+") eqn:Ep.
        + apply Ascii.eqb_eq in Ep. now subst c.
        + destruct (negb (String.eqb (String c r) "")
                    && all_digits (String c r))%bool eqn:Hd;
            [|discriminate].
          apply andb_true_iff in Hd. destruct Hd as [_ Hd]. simpl in Hd.
          destruct (digit_value c) eqn:Hc; [|discriminate].
          eapply digit_not_white; eauto. }
    unfold parseInt. simpl trimStart. rewrite Hw.
    destruct (strip_sign (String c r)) as [sign body].
    destruct (negb (String.eqb body "") && all_digits body)%bool eqn:Hd;
      [|discriminate].
    apply andb_true_iff in Hd. destruct Hd as [_ Hd].
    now rewrite (all_digits_decimal body Hd).
Qed.


Lemma filter_absent (n : Z) (l : list Transaction) :
  (forall r, In r l -> id r <> n) ->
  filter (fun x => negb (has_id n x)) l = l.
Proof.
  induction l as [|x l IH]; simpl; auto.
  intros H. unfold has_id at 1.
  destruct (Z.eqb_spec (id x) n) as [E|_].
  - elim (H x); auto.
  - simpl. f_equal. apply IH. auto.
Qed.


(** C2, as amended: validation in Create.  The request is answered 400 and
    nothing is persisted whenever [userId], [title] or [category] is
    missing or blank (null, empty string, false, zero), or [amount] is
    missing or not a number.  When [userId], [title] and [category] are
    non-empty strings and [amount] is a number, exactly one transaction
    is inserted, with these four values and the identifier and creation
    time the store assigns, and it is returned with status 201. *)
Theorem createItem_validation (fields : list (string * JsValue))
        (s : Store.t) :
  let req := JObj fields in
  let out := createItem Store.t Store.create req s in
  (blank (get req "userId") \/ blank (get req "title") \/
   blank (get req "category") \/ get req "amount" = JUndefined \/
   typeof (get req "amount") <> TNumber ->
   status (fst out) = 400 /\ snd out = s) /\
  (forall u ti q c,
     get req "userId" = JStr u -> get req "title" = JStr ti ->
     get req "amount" = JNum q -> get req "category" = JStr c ->
     u <> "" -> ti <> "" -> c <> "" ->
     let r := mkTransaction (next_id s) u ti q c (clock s) in
     out = (respond 201 (to_json r),
            mkStore (rows s ++ [r]) (next_id s + 1) (clock s + 1)) /\
     (wf s -> wf (snd out) /\ ~ In (id r) (map id (rows s)))).
Proof.
  intros req out. subst out req. split.
  - intros H.
    destruct (createItem_rejected Store.t Store.create fields s H)
      as [m Hm].
    now rewrite Hm.
  - intros u ti q c Hu Ht Ha Hc Hun Htn Hcn r.
    assert (Hout : createItem Store.t create (JObj fields) s =
              (respond 201 (to_json r),
               mkStore (rows s ++ [r]) (next_id s + 1) (clock s + 1))).
    { rewrite createItem_accepted.
      - rewrite Hu, Ht, Ha, Hc. reflexivity.
      - rewrite Hu. now apply nonempty_truthy.
      - rewrite Ht. now apply nonempty_truthy.
      - rewrite Hc. now apply nonempty_truthy.
      - eauto. }
    split; [exact Hout|].
    intros Hwf. split.
    + rewrite Hout.
      exact (create_wf (mkNewItem (JStr u) (JStr ti) (JNum q) (JStr c))
                       s Hwf).
    + now apply fresh_next_id.
Qed.

(** The scenario of the specification is what three creations on the
    empty store leave behind. *)
Example scenario_created :
  let body u ti a c :=
    JObj [("userId", JStr u); ("title", JStr ti);
          ("amount", JNum a); ("category", JStr c)] in
  let s1 := snd (createItem Store.t create (body "1" "A" 100%Q "salary")
                   Store.empty) in
  let s2 := snd (createItem Store.t create (body "1" "B" (-30)%Q "food") s1) in
  let s3 := snd (createItem Store.t create (body "2" "C" 50%Q "gift") s2) in
  s3 = scenario.
Proof. reflexivity. Qed.

Lemma createItem_validation_witness :
  createItem Store.t Store.create
    (JObj [("userId", JStr "1"); ("title", JStr "D");
           ("amount", JNum (-5)); ("category", JStr "food")])
    scenario
  = (respond 201 (to_json (mkTransaction 4 "1" "D" (-5) "food" 3)),
     mkStore (rows scenario ++ [mkTransaction 4 "1" "D" (-5) "food" 3]) 5 4)
  /\
  status (fst (createItem Store.t Store.create
                 (JObj [("userId", JStr "1"); ("title", JStr "D");
                        ("amount", JNum (-5))])
                 scenario)) = 400.
Proof.
  split.
  - apply (proj2 (createItem_validation
                    [("userId", JStr "1"); ("title", JStr "D");
                     ("amount", JNum (-5)); ("category", JStr "food")]
                    scenario) "1" "D" (-5)%Q "food");
      reflexivity || discriminate.
  - apply (proj1 (createItem_validation
                    [("userId", JStr "1"); ("title", JStr "D");
                     ("amount", JNum (-5))]
                    scenario)).
    right; right; left. now left.
Defined.

(** C2, as stated, fails: a body whose four fields are all present and
    whose amount is a number is refused, whatever the store, when a text
    field is the empty string.  Nor does the check read "missing" as
    "falsy" throughout: an amount of zero is accepted. *)
Lemma createItem_present_but_refused :
  let req :=
    JObj [("userId", JStr "1"); ("title", JStr "");
          ("amount", JNum 5); ("category", JStr "food")] in
  let zero :=
    JObj [("userId", JStr "1"); ("title", JStr "D");
          ("amount", JNum 0); ("category", JStr "food")] in
  (get req "userId" <> JUndefined /\ get req "title" <> JUndefined /\
   typeof (get req "amount") = TNumber /\
   get req "category" <> JUndefined) /\
  (forall St db s,
     createItem St db req s =
     (respond 400
        (message "All fields are required: userId, title, amount, category"),
      s)) /\
  truthy (get zero "amount") = false /\
  status (fst (createItem Store.t Store.create zero scenario)) = 201.
Proof.
  repeat split; discriminate.
Qed.


Lemma scenario_wf : wf scenario.
Proof.
  split; simpl.
  - repeat constructor; simpl; intuition discriminate.
  - repeat constructor.
Qed.


(** C3 at the id ["12abc"]: Delete is to answer 400 for every id that is
    not numeric.  ["12abc"] is not a numeral, yet [parseInt] reads 12 at
    its start, so the format check lets it through to the store: whatever
    the store, the answer is not 400 (on the reference store it is 500,
    the store refusing the id). *)
Lemma deleteItem_accepts_trailing_text :
  is_numeral "12abc" = false /\
  parseInt "12abc" = Some 12 /\
  (forall St db s,
     status (fst (deleteItem St db (Some "12abc") s)) <> 400) /\
  status (fst (deleteItem Store.t Store.deleteById (Some "12abc") scenario))
  = 500.
Proof.
  repeat split.
  intros St db s. now apply (deleteItem_passed_status St db "12abc" 12).
Qed.

End ControllerFacts.

(** ** Asynchronous functions *)

Module AsyncFacts.
Import Js Async.
Local Open Scope list_scope.
Local Open Scope nat_scope.

Section Facts.

Variable E : Type.
Implicit Types (p a b : Proc E) (sched : list Settlement).

(** Once nothing is awaited any more, nothing happens any more. *)
Lemma run_done p sched : waiting p = 0 -> run p sched = ([], p).
Proof.
  intros H. induction sched as [|c rest IH]; simpl; auto.
  unfold step. rewrite H. simpl. now rewrite IH.
Qed.

Lemma run_app p s1 s2 :
  run p (s1 ++ s2) =
  let (t1, p1) := run p s1 in
  let (t2, p2) := run p1 s2 in
  (t1 ++ t2, p2).
Proof.
  revert p. induction s1 as [|c s1 IH]; intros p; simpl.
  - now destruct (run p s2).
  - destruct (step p c) as [t p']. rewrite IH.
    destruct (run p' s1) as [t1 p1]. destruct (run p1 s2) as [t2 p2].
    now rewrite app_assoc.
Qed.

Section Steady.

Variable Q : E -> Prop.

Lemma steady_no_throw p :
  steady Q p -> forall err, result p <> Some (Thrown err).
Proof.
  induction p as [|e|e k IH|k IH|r k IH|a IHa b IHb k IHk|a IHa k IHk];
    simpl; intros H err; try discriminate.
  - destruct H.
  - destruct H as [_ H]. now apply IHk.
Qed.

Lemma steady_sync p :
  steady Q p -> Forall Q (fst (sync p)) /\ steady Q (snd (sync p)).
Proof.
  induction p as [|e|e k IH|k IH|r k IH|a IHa b IHb k IHk|a IHa k IHk];
    simpl; intros H.
  - auto.
  - destruct H.
  - destruct H as [Hq Hk]. destruct (IH Hk) as [Hf Hs].
    destruct (sync k) as [t p']. simpl in *. auto.
  - auto.
  - auto.
  - destruct H as (Ha & Hb & Hk).
    destruct (IHa Ha) as [Fa Sa]. destruct (IHb Hb) as [Fb Sb].
    destruct (IHk _ Hk) as [Fk Sk].
    destruct (sync a) as [ta a']. destruct (sync b) as [tb b'].
    simpl in Fa, Sa, Fb, Sb.
    pose proof (steady_no_throw a' Sa) as Na.
    pose proof (steady_no_throw b' Sb) as Nb.
    destruct (result a') as [[[]|ea]|]; try (now elim (Na ea));
      destruct (result b') as [[[]|eb]|]; try (now elim (Nb eb));
      simpl; try (split; [apply Forall_app; auto | simpl; auto]).
    destruct (sync (k (Returned tt))) as [tk k']. simpl in *.
    split; [|auto]. apply Forall_app. split; auto.
    apply Forall_app. auto.
  - destruct H as [Ha Hk].
    destruct (IHa Ha) as [Fa Sa]. destruct (IHk Hk) as [Fk Sk].
    destruct (sync a) as [ta a']. destruct (sync k) as [tk k'].
    simpl in *. split; [apply Forall_app|]; auto.
Qed.

Lemma steady_resume p i o : steady Q p -> steady Q (resume p i o).
Proof.
  revert i.
  induction p as [|e|e k IH|k IH|r k IH|a IHa b IHb k IHk|a IHa k IHk];
    simpl; intros i H; auto.
  - destruct H as (Ha & Hb & Hk).
    destruct (Nat.ltb i (waiting a)); simpl; auto.
  - destruct H as [Ha Hk].
    destruct (Nat.ltb i (waiting a)); simpl; auto.
Qed.

Lemma steady_step p c :
  steady Q p -> Forall Q (fst (step p c)) /\ steady Q (snd (step p c)).
Proof.
  intros H. unfold step. destruct (Nat.ltb (fst c) (waiting p)).
  - now apply steady_sync, steady_resume.
  - simpl. auto.
Qed.

Lemma steady_run p sched :
  steady Q p -> Forall Q (fst (run p sched)) /\ steady Q (snd (run p sched)).
Proof.
  revert p. induction sched as [|c rest IH]; intros p H; simpl; auto.
  destruct (steady_step p c H) as [Ft Sp].
  destruct (step p c) as [t p']. simpl in *.
  destruct (IH p' Sp) as [Ft' Sp'].
  destruct (run p' rest) as [t' p'']. simpl in *.
  split; auto. apply Forall_app. auto.
Qed.

(** A steady function emits only [Q]-effects, and its promise never
    rejects. *)
Lemma steady_call p sched :
  steady Q p ->
  Forall Q (fst (call p sched)) /\
  forall err, result (snd (call p sched)) <> Some (Thrown err).
Proof.
  intros H. unfold call.
  destruct (steady_sync p H) as [Ft Sp].
  destruct (sync p) as [t p']. simpl in *.
  destruct (steady_run p' sched Sp) as [Ft' Sp'].
  destruct (run p' sched) as [t' p'']. simpl in *.
  split; [apply Forall_app; auto|]. now apply steady_no_throw.
Qed.

End Steady.

(** *** Functions that await one promise after the other *)

Lemma within_mono p n m : within p n -> n <= m -> within p m.
Proof.
  revert n m.
  induction p as [|e|e k IH|k IH|r k IH|a IHa b IHb k IHk|a IHa k IHk];
    simpl; intros n m H Hle; auto.
  - eapply IH; eauto.
  - destruct n as [|n]; [destruct H|]. destruct m as [|m]; [lia|].
    intros o. apply (IH o n m); auto. lia.
  - destruct n as [|n]; [destruct H|]. destruct m as [|m]; [lia|].
    intros o. apply (IH o n m); auto. lia.
Qed.

Lemma within_sync p n :
  within p n -> within (snd (sync p)) n /\ paused (snd (sync p)).
Proof.
  induction p as [|e|e k IH|k IH|r k IH|a IHa b IHb k IHk|a IHa k IHk];
    simpl; intros H; auto; try (now destruct H).
  destruct (IH H) as [Hw Hp]. destruct (sync k) as [t p']. auto.
Qed.

Lemma within_resume p n i o :
  paused p -> within p n -> i < waiting p ->
  exists m, n = S m /\ within (resume p i o) m.
Proof.
  destruct p; simpl; intros Hp Hw Hi; try lia; try (now destruct Hp).
  - destruct n as [|m]; [destruct Hw|]. exists m. auto.
  - destruct n as [|m]; [destruct Hw|]. exists m. auto.
Qed.

Lemma paused_waiting p n :
  paused p -> within p n -> result p = None -> waiting p = 1.
Proof.
  destruct p; simpl; intros Hp Hw Hr; auto; try discriminate;
    now destruct Hp.
Qed.

Lemma within_step p n c :
  paused p -> within p n ->
  within (snd (step p c)) n /\ paused (snd (step p c)).
Proof.
  intros Hp Hw. unfold step.
  destruct (Nat.ltb (fst c) (waiting p)) eqn:Hc; [|simpl; auto].
  apply Nat.ltb_lt in Hc.
  destruct (within_resume p n (fst c) (snd c) Hp Hw Hc) as (m & -> & Hw').
  apply within_sync. eapply within_mono; eauto.
Qed.

Lemma within_run p n sched :
  paused p -> within p n ->
  within (snd (run p sched)) n /\ paused (snd (run p sched)).
Proof.
  revert p. induction sched as [|c rest IH]; intros p Hp Hw; simpl; auto.
  destruct (within_step p n c Hp Hw) as [Hw' Hp'].
  destruct (step p c) as [t p']. simpl in *.
  destruct (IH p' Hp' Hw') as [Hw'' Hp''].
  destruct (run p' rest) as [t' p'']. auto.
Qed.

(** Settling its await [n] times or more lets such a function finish. *)
Lemma within_complete p n o m :
  paused p -> within p n -> n <= m ->
  waiting (snd (run p (repeat (0, o) m))) = 0.
Proof.
  revert p m. induction n as [|n IH]; intros p m Hp Hw Hm.
  - assert (H0 : waiting p = 0)
      by (destruct p; simpl in *; try reflexivity; tauto).
    now rewrite run_done.
  - destruct m as [|m]; [lia|]. simpl repeat. simpl run.
    destruct (Nat.ltb 0 (waiting p)) eqn:Hc.
    + apply Nat.ltb_lt in Hc.
      destruct (within_resume p (S n) 0 o Hp Hw Hc) as (n' & Hn & Hw').
      injection Hn as <-.
      destruct (within_sync _ _ Hw') as [Hw'' Hp''].
      unfold step. simpl fst. simpl snd.
      apply Nat.ltb_lt in Hc. rewrite Hc.
      destruct (sync (resume p 0 o)) as [t p']. simpl in *.
      assert (Hm' : n <= m) by lia.
      specialize (IH p' m Hp'' Hw'' Hm').
      destruct (run p' (repeat (0, o) m)) as [t' p'']. auto.
    + unfold step. simpl fst. rewrite Hc.
      apply Nat.ltb_ge in Hc.
      assert (H0 : waiting p = 0) by lia.
      rewrite (run_done p _ H0). exact H0.
Qed.

Lemma paused_over (Q : E -> Prop) p n :
  paused p -> within p n -> steady Q p -> waiting p = 0 ->
  result p = Some (Returned tt).
Proof.
  destruct p; simpl; intros Hp Hw Hs H0; auto; try discriminate;
    now destruct Hs.
Qed.

(** A function that awaits at most [n] promises in a row and lets no
    error out resolves once its awaits have been settled, whatever
    happened before. *)
Lemma call_resolves (Q : E -> Prop) p n sched o :
  within p n -> steady Q p ->
  result (snd (call p (sched ++ repeat (0, o) n))) = Some (Returned tt).
Proof.
  intros Hw Hs. unfold call.
  destruct (within_sync p n Hw) as [Hw0 Hp0].
  destruct (steady_sync Q p Hs) as [_ Hs0].
  destruct (sync p) as [t0 p0]. simpl in *.
  rewrite run_app.
  destruct (within_run p0 n sched Hp0 Hw0) as [Hw1 Hp1].
  destruct (steady_run Q p0 sched Hs0) as [_ Hs1].
  destruct (run p0 sched) as [t1 p1]. simpl in *.
  pose proof (within_complete p1 n o n Hp1 Hw1 (Nat.le_refl n)) as H0.
  destruct (within_run p1 n (repeat (0, o) n) Hp1 Hw1) as [Hw2 Hp2].
  destruct (steady_run Q p1 (repeat (0, o) n) Hs1) as [_ Hs2].
  destruct (run p1 (repeat (0, o) n)) as [t2 p2]. simpl in *.
  eapply paused_over; eauto.
Qed.

Lemma joining_waiting (Q : E -> Prop) (k : Outcome unit -> Proc E) n p :
  joining Q k n p -> 0 < waiting p.
Proof.
  intros H. destruct H as [a b na nb n Wa Wb Pa Pb Sa Sb Hr Hn]. simpl.
  destruct Hr as [Hr|Hr].
  - rewrite (paused_waiting a na Pa Wa Hr). lia.
  - rewrite (paused_waiting b nb Pb Wb Hr). lia.
Qed.

Lemma joining_result (Q : E -> Prop) (k : Outcome unit -> Proc E) n p :
  joining Q k n p -> result p = None.
Proof. intros H. now destruct H. Qed.

Lemma joining_mono (Q : E -> Prop) (k : Outcome unit -> Proc E) n m p :
  joining Q k n p -> n <= m -> joining Q k m p.
Proof.
  intros H Hle. destruct H as [a b na nb n Wa Wb Pa Pb Sa Sb Hr Hn].
  econstructor; eauto. lia.
Qed.

(** *** Promise.all over two such functions

    [k] is what follows the [await]; on fulfilment it runs the effects
    [tk] and is then over, as [kr]. *)

Section Joining.

Variable Q : E -> Prop.
Variable k : Outcome unit -> Proc E.
Variable tk : list E.
Variable kr : Proc E.
Hypothesis Hk : sync (k (Returned tt)) = (tk, kr).
Hypothesis Hkr : waiting kr = 0.

Lemma joined_waiting t p : joined Q tk kr t p -> waiting p = 0.
Proof. intros (t1 & _ & _ & ->). simpl. exact Hkr. Qed.

(** Running a Promise.all whose functions never throw: it keeps waiting,
    or both have returned and the continuation has run. *)
Lemma sync_all a b na nb :
  within a na -> within b nb -> steady Q a -> steady Q b ->
  (Forall Q (fst (sync (AwaitAll a b k))) /\
   joining Q k (na + nb) (snd (sync (AwaitAll a b k)))) \/
  joined Q tk kr (fst (sync (AwaitAll a b k))) (snd (sync (AwaitAll a b k))).
Proof.
  intros Wa Wb Sa Sb. simpl.
  destruct (within_sync a na Wa) as [Wa' Pa].
  destruct (within_sync b nb Wb) as [Wb' Pb].
  destruct (steady_sync Q a Sa) as [Fa Sa'].
  destruct (steady_sync Q b Sb) as [Fb Sb'].
  destruct (sync a) as [ta a']. destruct (sync b) as [tb b'].
  simpl in *. rewrite Hk.
  assert (Hwait : forall pa pb,
            pa = a' -> pb = b' ->
            result pa = None \/ result pb = None ->
            joining Q k (na + nb) (AwaitAll pa pb k)).
  { intros pa pb -> -> Hr. econstructor; eauto. }
  destruct a' as [|ea|? ?|ka|ra ka|? ? ?|? ?]; simpl in Pa, Sa';
    try (now destruct Pa); try (now destruct Sa');
    destruct b' as [|eb|? ?|kb|rb kb|? ? ?|? ?]; simpl in Pb, Sb';
    try (now destruct Pb); try (now destruct Sb'); simpl;
    try (left; split; [apply Forall_app; auto|];
         apply Hwait; simpl; auto; fail).
  right. exists (ta ++ tb). repeat split.
  - apply Forall_app; auto.
  - now rewrite app_assoc.
Qed.

(** A settlement that resumes one of the two functions uses up one of the
    awaits to go. *)
Lemma step_joining_progress n p c :
  joining Q k n p -> fst c < waiting p ->
  (Forall Q (fst (step p c)) /\
   exists m, n = S m /\ joining Q k m (snd (step p c))) \/
  joined Q tk kr (fst (step p c)) (snd (step p c)).
Proof.
  intros H Hc. unfold step.
  apply Nat.ltb_lt in Hc. rewrite Hc. apply Nat.ltb_lt in Hc.
  destruct H as [a b na nb n Wa Wb Pa Pb Sa Sb Hr Hn].
  simpl resume. simpl waiting in Hc.
  destruct (Nat.ltb (fst c) (waiting a)) eqn:Hi.
  - apply Nat.ltb_lt in Hi.
    destruct (within_resume a na (fst c) (snd c) Pa Wa Hi) as (m & -> & Wa').
    destruct (sync_all (resume a (fst c) (snd c)) b m nb)
      as [[Hf Hj]|Hd]; auto using steady_resume.
    left. split; auto.
    destruct n as [|n]; [lia|]. exists n. split; auto.
    eapply joining_mono; eauto. lia.
  - apply Nat.ltb_ge in Hi.
    assert (Hi' : fst c - waiting a < waiting b) by lia.
    destruct (within_resume b nb _ (snd c) Pb Wb Hi') as (m & -> & Wb').
    destruct (sync_all a (resume b (fst c - waiting a) (snd c)) na m)
      as [[Hf Hj]|Hd]; auto using steady_resume.
    left. split; auto.
    destruct n as [|n]; [lia|]. exists n. split; auto.
    eapply joining_mono; eauto. lia.
Qed.

Lemma step_joining n p c :
  joining Q k n p ->
  (Forall Q (fst (step p c)) /\ joining Q k n (snd (step p c))) \/
  joined Q tk kr (fst (step p c)) (snd (step p c)).
Proof.
  intros H. destruct (Nat.ltb (fst c) (waiting p)) eqn:Hc.
  - apply Nat.ltb_lt in Hc.
    destruct (step_joining_progress n p c H Hc) as [(Hf & m & -> & Hj)|Hd];
      auto.
    left. split; auto. eapply joining_mono; eauto.
  - unfold step. rewrite Hc. simpl. auto.
Qed.

(** Under any schedule the Promise.all is still waiting, with effects of
    the two functions only so far, or it has settled and the last effects
    are those of the continuation. *)
Lemma run_joining n p sched :
  joining Q k n p ->
  (Forall Q (fst (run p sched)) /\ joining Q k n (snd (run p sched))) \/
  joined Q tk kr (fst (run p sched)) (snd (run p sched)).
Proof.
  revert p. induction sched as [|c rest IH]; intros p H; simpl; auto.
  destruct (step_joining n p c H) as [[Hf Hj]|Hd].
  - destruct (step p c) as [t p']. simpl in *.
    destruct (IH p' Hj) as [[Hf' Hj']|(t1 & Ht1 & Ht & Hp)].
    + destruct (run p' rest) as [t' p'']. simpl in *. left. split; auto.
      apply Forall_app. auto.
    + destruct (run p' rest) as [t' p'']. simpl in *. right.
      exists (t ++ t1). repeat split; auto.
      * apply Forall_app. auto.
      * rewrite Ht. now rewrite app_assoc.
  - destruct (step p c) as [t p']. simpl in *.
    rewrite (run_done p' rest (joined_waiting _ _ Hd)).
    rewrite app_nil_r. auto.
Qed.

(** Settling the leftmost await [n] times or more lets the Promise.all
    settle. *)
Lemma run_joining_complete n p o m :
  joining Q k n p -> n <= m ->
  joined Q tk kr (fst (run p (repeat (0, o) m)))
         (snd (run p (repeat (0, o) m))).
Proof.
  revert p m. induction n as [|n IH]; intros p m H Hm.
  - exfalso.
    inversion H as [a b na nb n' Wa Wb Pa Pb Sa Sb Hr Hn]; subst.
    assert (na = 0 /\ nb = 0) as [-> ->] by lia.
    destruct Hr as [Hr|Hr].
    + destruct a; simpl in *; try discriminate; auto.
    + destruct b; simpl in *; try discriminate; auto.
  - destruct m as [|m]; [lia|]. simpl repeat. simpl run.
    pose proof (joining_waiting _ _ _ _ H) as Hw.
    destruct (step_joining_progress (S n) p (0, o) H Hw)
      as [(Hf & n' & Hn' & Hj)|Hd].
    + injection Hn' as <-.
      destruct (step p (0, o)) as [t p']. simpl in *.
      assert (Hm' : n <= m) by lia.
      destruct (IH p' m Hj Hm') as (t1 & Ht1 & Ht & Hp).
      destruct (run p' (repeat (0, o) m)) as [t' p'']. simpl in *.
      exists (t ++ t1). repeat split; auto.
      * apply Forall_app. auto.
      * rewrite Ht. now rewrite app_assoc.
    + destruct (step p (0, o)) as [t p']. simpl in *.
      rewrite (run_done p' _ (joined_waiting _ _ Hd)).
      rewrite app_nil_r. auto.
Qed.

End Joining.

(** A detached function goes on as it would on its own. *)
Lemma run_detached a sched :
  run (Detached a Ret) sched =
  (fst (run a sched), Detached (snd (run a sched)) Ret).
Proof.
  revert a. induction sched as [|c rest IH]; intros a; simpl; auto.
  unfold step. simpl waiting. rewrite Nat.add_0_r.
  destruct (Nat.ltb (fst c) (waiting a)) eqn:Hc.
  - simpl resume. rewrite Hc. simpl sync.
    destruct (sync (resume a (fst c) (snd c))) as [t a'].
    rewrite IH. destruct (run a' rest) as [t' a'']. simpl.
    now rewrite app_nil_r.
  - rewrite IH. destruct (run a rest) as [t' a'']. reflexivity.
Qed.

End Facts.

End AsyncFacts.

(** ** The mobile data hook *)

Module HookFacts.
Import Js Async Hook AsyncFacts.
Local Open Scope list_scope.
Local Open Scope nat_scope.

Lemma fetchTransaction_steady u : steady fetcher_effect (fetchTransaction u).
Proof.
  simpl. split; [exact I|]. intros [r|err]; simpl; auto.
  destruct (json_of r); simpl; auto.
Qed.

Lemma fetchSummary_steady u : steady fetcher_effect (fetchSummary u).
Proof.
  simpl. split; [exact I|]. intros [r|err]; simpl; auto.
  destruct (json_of r); simpl; auto.
Qed.

Lemma fetchTransaction_within u : within (fetchTransaction u) 2.
Proof. simpl. intros [r|err]; simpl; auto. intros [d|err]; simpl; auto. Qed.

Lemma fetchSummary_within u : within (fetchSummary u) 2.
Proof. simpl. intros [r|err]; simpl; auto. intros [d|err]; simpl; auto. Qed.

Lemma loadData_absent u sched :
  truthy (of_option u) = false -> call (loadData u) sched = ([], Ret).
Proof.
  intros H. unfold loadData, Js.not. rewrite H.
  change (call (@Ret Effect) sched = ([], Ret)).
  unfold call. simpl sync. cbv iota. now rewrite run_done.
Qed.

Lemma loadData_present u :
  truthy (of_option u) = true ->
  loadData u =
  Do (SetIsLoading true)
     (AwaitAll (fetchTransaction u) (fetchSummary u) after_all).
Proof. intros H. unfold loadData, Js.not. now rewrite H. Qed.

Lemma after_all_sync :
  sync (after_all (Returned tt)) = ([SetIsLoading false], Ret).
Proof. reflexivity. Qed.

(** The synchronous part of [loadData]: the flag is set and both requests
    are issued; the function is then suspended on its Promise.all. *)
Lemma loadData_start u :
  truthy (of_option u) = true ->
  exists p0,
    sync (loadData u) =
    ([SetIsLoading true;
      Fetch GET (API_URL ++ "/transactions/" ++ text u)%string;
      Fetch GET (API_URL ++ "/transactions/summary/" ++ text u)%string],
     p0) /\
    joining fetcher_effect after_all 4 p0.
Proof.
  intros H. rewrite (loadData_present u H).
  exists (snd (sync (AwaitAll (fetchTransaction u) (fetchSummary u)
                              after_all))).
  split; [reflexivity|].
  destruct (sync_all Effect fetcher_effect after_all
              [SetIsLoading false] Ret after_all_sync
              (fetchTransaction u) (fetchSummary u) 2 2
              (fetchTransaction_within u) (fetchSummary_within u)
              (fetchTransaction_steady u) (fetchSummary_steady u))
    as [[_ Hj]|(t1 & _ & _ & Hp)].
  - exact Hj.
  - discriminate Hp.
Qed.

(** While [loadData] is suspended only the two fetch functions act; it
    ends with the clearing of the flag, and ends only then. *)
Lemma loadData_run u sched :
  truthy (of_option u) = true ->
  exists t p,
    call (loadData u) sched =
    (SetIsLoading true
       :: Fetch GET (API_URL ++ "/transactions/" ++ text u)%string
       :: Fetch GET (API_URL ++ "/transactions/summary/" ++ text u)%string
       :: t, p) /\
    ((Forall fetcher_effect t /\ 0 < waiting p /\ result p = None) \/
     (exists t1,
        Forall fetcher_effect t1 /\ t = t1 ++ [SetIsLoading false] /\
        waiting p = 0 /\ result p = Some (Returned tt))).
Proof.
  intros H. destruct (loadData_start u H) as (p0 & Hs & Hj).
  unfold call. rewrite Hs.
  destruct (run_joining Effect fetcher_effect after_all
              [SetIsLoading false] Ret after_all_sync eq_refl
              4 p0 sched Hj) as [[Hf Hj']|(t1 & Ht1 & Ht & Hp)].
  - destruct (run p0 sched) as [t p]. cbn [fst snd] in *.
    exists t, p. split; [reflexivity|]. left. split; [exact Hf|]. split.
    + eapply joining_waiting. exact Hj'.
    + eapply joining_result. exact Hj'.
  - destruct (run p0 sched) as [t p]. cbn [fst snd] in *.
    exists t, p. split; [reflexivity|]. right.
    exists t1. subst p. auto.
Qed.

Lemma loadData_completes u sched o :
  truthy (of_option u) = true ->
  waiting (snd (call (loadData u) (sched ++ repeat (0, o) 4))) = 0.
Proof.
  intros H. destruct (loadData_start u H) as (p0 & Hs & Hj).
  unfold call. rewrite Hs, run_app.
  destruct (run_joining Effect fetcher_effect after_all
              [SetIsLoading false] Ret after_all_sync eq_refl
              4 p0 sched Hj) as [[_ Hj']|Hd].
  - destruct (run p0 sched) as [t1 p1]. cbn [fst snd] in *.
    pose proof (run_joining_complete Effect fetcher_effect after_all
                  [SetIsLoading false] Ret after_all_sync eq_refl
                  4 p1 o 4 Hj' (Nat.le_refl 4)) as Hd.
    destruct (run p1 (repeat (0, o) 4)) as [t2 p2]. cbn [fst snd] in *.
    destruct Hd as (t3 & _ & _ & ->). reflexivity.
  - destruct (run p0 sched) as [t1 p1]. cbn [fst snd] in *.
    destruct Hd as (t3 & _ & _ & ->).
    rewrite run_done by reflexivity. reflexivity.
Qed.

Lemma apply_all_clears st t :
  isLoading (apply_all st (t ++ [SetIsLoading false])) = false.
Proof. unfold apply_all. now rewrite fold_left_app. Qed.

(** C7: [loadData].  With [userId] absent (undefined, or empty: falsy) it
    does nothing at all.  Otherwise, before anything is awaited, it sets
    the loading flag and issues the list request and the summary request,
    so that both are under way together; whatever the answers and their
    order, once nothing is left to await its last effect is the clearing
    of the flag, which ends up false; and settling the awaits (four at
    most) gets it there. *)
Theorem loadData_loading_flag (u : option string) (sched : list Settlement)
        (st : State) :
  (truthy (of_option u) = false ->
   call (loadData u) sched = ([], Ret)) /\
  (truthy (of_option u) = true ->
   fst (sync (loadData u)) =
   [SetIsLoading true;
    Fetch GET (API_URL ++ "/transactions/" ++ text u)%string;
    Fetch GET (API_URL ++ "/transactions/summary/" ++ text u)%string] /\
   (exists rest,
      fst (call (loadData u) sched) = fst (sync (loadData u)) ++ rest) /\
   (waiting (snd (call (loadData u) sched)) = 0 ->
    (exists mid,
       fst (call (loadData u) sched) =
       SetIsLoading true :: mid ++ [SetIsLoading false]) /\
    isLoading (apply_all st (fst (call (loadData u) sched))) = false) /\
   (forall o,
      waiting (snd (call (loadData u) (sched ++ repeat (0, o) 4))) = 0)).
Proof.
  split; [apply loadData_absent|].
  intros H. destruct (loadData_run u sched H) as (t & p & Hc & Hcase).
  destruct (loadData_start u H) as (p0 & Hs & _).
  rewrite Hc, Hs. cbn [fst snd]. split; [reflexivity|].
  split; [now exists t|]. split.
  - intros H0. destruct Hcase as [(_ & Hw & _)|(t1 & _ & -> & _)]; [lia|].
    split.
    + now exists (Fetch GET (API_URL ++ "/transactions/" ++ text u)%string
                  :: Fetch GET
                       (API_URL ++ "/transactions/summary/" ++ text u)%string
                  :: t1).
    + apply (apply_all_clears st (_ :: _ :: _ :: t1)).
  - intros o. now apply loadData_completes.
Qed.

Lemma loadData_loading_flag_witness :
  isLoading
    (apply_all initial
       (fst (call (loadData (Some "user_1"%string))
               [(1, Thrown "Network request failed"%string);
                (0, Returned (mkResponse 500 None));
                (0, Thrown ""%string)])))
  = false
  /\ call (loadData None) [(0, Returned (mkResponse 200 None))] = ([], Ret).
Proof.
  split.
  - apply (proj2 (loadData_loading_flag (Some "user_1"%string)
                    [(1, Thrown "Network request failed"%string);
                     (0, Returned (mkResponse 500 None));
                     (0, Thrown ""%string)]
                    initial) eq_refl).
    reflexivity.
  - apply (proj1 (loadData_loading_flag None
                    [(0, Returned (mkResponse 200 None))] initial)).
    reflexivity.
Defined.

(** C9: the two fetch functions let no error out: their promise never
    rejects, and it fulfils once their awaits (two at most) have been
    settled.  Hence in [loadData] the Promise.all never rejects: the
    [catch] of [loadData] never runs, [loadData] itself never rejects, and
    the loading flag is cleared only when both fetch functions are over. *)
Theorem fetches_never_reject (u : option string) (sched : list Settlement) :
  (forall err,
     result (snd (call (fetchTransaction u) sched)) <> Some (Thrown err)) /\
  (forall err,
     result (snd (call (fetchSummary u) sched)) <> Some (Thrown err)) /\
  (forall o,
     result (snd (call (fetchTransaction u) (sched ++ repeat (0, o) 2)))
     = Some (Returned tt)) /\
  (forall o,
     result (snd (call (fetchSummary u) (sched ++ repeat (0, o) 2)))
     = Some (Returned tt)) /\
  (forall err,
     ~ In (ConsoleError "Error loading data" err)
          (fst (call (loadData u) sched))) /\
  (forall err,
     result (snd (call (loadData u) sched)) <> Some (Thrown err)) /\
  (In (SetIsLoading false) (fst (call (loadData u) sched)) ->
   waiting (snd (call (loadData u) sched)) = 0).
Proof.
  split; [apply steady_call with (Q := fetcher_effect),
            fetchTransaction_steady|].
  split; [apply steady_call with (Q := fetcher_effect),
            fetchSummary_steady|].
  split; [intros o; apply call_resolves with (Q := fetcher_effect);
            [apply fetchTransaction_within|apply fetchTransaction_steady]|].
  split; [intros o; apply call_resolves with (Q := fetcher_effect);
            [apply fetchSummary_within|apply fetchSummary_steady]|].
  destruct (truthy (of_option u)) eqn:H.
  - destruct (loadData_run u sched H) as (t & p & Hc & Hcase).
    rewrite Hc. cbn [fst snd].
    assert (Hfe : forall e, In e t ->
                    fetcher_effect e \/ e = SetIsLoading false).
    { intros e He.
      destruct Hcase as [(Hf & _)|(t1 & Hf & -> & _)].
      - left. rewrite Forall_forall in Hf. auto.
      - apply in_app_or in He. destruct He as [He|[<-|[]]]; auto.
        left. rewrite Forall_forall in Hf. auto. }
    split; [|split].
    + intros err [E|[E|[E|Hin]]]; try discriminate.
      destruct (Hfe _ Hin) as [Hq|E]; discriminate.
    + intros err.
      destruct Hcase as [(_ & _ & ->)|(t1 & _ & _ & _ & ->)]; discriminate.
    + intros [E|[E|[E|Hin]]]; try discriminate.
      destruct Hcase as [(Hf & _)|(t1 & _ & _ & H0 & _)]; auto.
      rewrite Forall_forall in Hf. elim (Hf _ Hin).
  - rewrite (loadData_absent u sched H). cbn [fst snd].
    split; [|split]; simpl; auto; discriminate.
Qed.

(** C10: the two fetch functions never look at the HTTP status.  Whenever
    the body of the response parses as JSON, whatever the status, the
    parsed body becomes the transactions (respectively the summary) of the
    hook, in place of what was there. *)
Theorem fetch_stores_any_json_body (u : option string) (r : Response)
        (d : JsValue) (o : Outcome Response) (rest : list Settlement)
        (st : State) :
  resp_body r = Some d ->
  call (fetchTransaction u) ((0, Returned r) :: (0, o) :: rest) =
  ([Fetch GET (API_URL ++ "/transactions/" ++ text u)%string;
    SetTransactions d], Ret) /\
  apply_all st
    (fst (call (fetchTransaction u) ((0, Returned r) :: (0, o) :: rest))) =
  mkState d (summary st) (isLoading st) /\
  call (fetchSummary u) ((0, Returned r) :: (0, o) :: rest) =
  ([Fetch GET (API_URL ++ "/transactions/summary/" ++ text u)%string;
    SetSummary d], Ret) /\
  apply_all st
    (fst (call (fetchSummary u) ((0, Returned r) :: (0, o) :: rest))) =
  mkState (transactions st) d (isLoading st).
Proof.
  intros Hbody.
  assert (Ht : call (fetchTransaction u) ((0, Returned r) :: (0, o) :: rest)
               = ([Fetch GET (API_URL ++ "/transactions/" ++ text u)%string;
                   SetTransactions d], Ret)).
  { unfold call, fetchTransaction, fetch, json. cbn [try_catch sync].
    cbn [run step fst snd waiting Nat.ltb Nat.leb resume awaited try_catch
         sync].
    unfold json_of. rewrite Hbody.
    cbn [awaited try_catch sync app]. now rewrite run_done. }
  assert (Hs : call (fetchSummary u) ((0, Returned r) :: (0, o) :: rest)
               = ([Fetch GET
                     (API_URL ++ "/transactions/summary/" ++ text u)%string;
                   SetSummary d], Ret)).
  { unfold call, fetchSummary, fetch, json. cbn [try_catch sync].
    cbn [run step fst snd waiting Nat.ltb Nat.leb resume awaited try_catch
         sync].
    unfold json_of. rewrite Hbody.
    cbn [awaited try_catch sync app]. now rewrite run_done. }
  rewrite Ht, Hs. repeat split.
Qed.

Lemma fetch_stores_any_json_body_witness :
  let too_many :=
    JObj [("message"%string,
           JStr "Too many requests, please try again later.")] in
  apply_all initial
    (fst (call (fetchTransaction (Some "user_1"%string))
            [(0, Returned (mkResponse 429 (Some too_many)));
             (0, Thrown ""%string)]))
  = mkState too_many (summary initial) true.
Proof.
  intros too_many.
  apply (fetch_stores_any_json_body (Some "user_1"%string)
           (mkResponse 429 (Some too_many)) too_many (Thrown ""%string) []
           initial eq_refl).
Defined.

(** C8: [deleteTransactions].  It issues the delete request.  On a
    response that is not a success the failure is logged and shown in an
    error alert, with the reason "Failed to delete transaction", and
    nothing else happens: no refresh.  On a success [loadData] is called,
    then the success alert is shown, and what follows is the refresh that
    [loadData] performs: the alert comes after the synchronous part of
    [loadData] and before its answers. *)
Theorem deleteTransactions_outcomes (u : option string) (id : string)
        (r : Response) (rest : list Settlement) :
  fst (call (deleteTransactions u id) []) =
  [Fetch DELETE (API_URL ++ "/transactions/" ++ id)%string] /\
  (ok r = false ->
   call (deleteTransactions u id) ((0, Returned r) :: rest) =
   ([Fetch DELETE (API_URL ++ "/transactions/" ++ id)%string;
     ConsoleError "Error deleting transaction" "Failed to delete transaction";
     Alert "Error" "Failed to delete transaction"],
    Ret)) /\
  (ok r = true ->
   fst (call (deleteTransactions u id) ((0, Returned r) :: rest)) =
   [Fetch DELETE (API_URL ++ "/transactions/" ++ id)%string]
   ++ fst (sync (loadData u))
   ++ [Alert "Success" "Transaction deleted successfully"]
   ++ fst (run (snd (sync (loadData u))) rest)).
Proof.
  split; [reflexivity|]. split.
  - intros Hok. unfold call, deleteTransactions, fetch.
    cbn [try_catch sync].
    cbn [run step fst snd waiting Nat.ltb Nat.leb resume awaited].
    rewrite Hok. cbn [negb try_catch sync app].
    now rewrite run_done.
  - intros Hok. unfold call, deleteTransactions, fetch.
    cbn [try_catch sync].
    cbn [run step fst snd waiting Nat.ltb Nat.leb resume awaited].
    rewrite Hok. cbn [negb try_catch sync].
    destruct (sync (loadData u)) as [t0 p0].
    rewrite run_detached. cbn [fst snd app].
    now rewrite <- !app_assoc.
Qed.

Lemma deleteTransactions_outcomes_witness :
  call (deleteTransactions (Some "user_1"%string) "7")
       [(0, Returned (mkResponse 404 None))] =
  ([Fetch DELETE (API_URL ++ "/transactions/7")%string;
    ConsoleError "Error deleting transaction" "Failed to delete transaction";
    Alert "Error" "Failed to delete transaction"],
   Ret)
  /\
  fst (call (deleteTransactions (Some "user_1"%string) "7")
         [(0, Returned (mkResponse 200 None))]) =
  [Fetch DELETE (API_URL ++ "/transactions/7")%string;
   SetIsLoading true;
   Fetch GET (API_URL ++ "/transactions/user_1")%string;
   Fetch GET (API_URL ++ "/transactions/summary/user_1")%string;
   Alert "Success" "Transaction deleted successfully"].
Proof.
  split.
  - apply (proj1 (proj2 (deleteTransactions_outcomes
                           (Some "user_1"%string) "7"
                           (mkResponse 404 None) []))).
    reflexivity.
  - apply (proj2 (proj2 (deleteTransactions_outcomes
                           (Some "user_1"%string) "7"
                           (mkResponse 200 None) []))).
    reflexivity.
Defined.

End HookFacts.

(** ** More on the rate limiter: which requests share a key *)

Module RateLimiterKeys.
Import Js RateLimiter JsFacts RateLimiterFacts.

Lemma first_token_split (sep : ascii) (h tok : string) :
  first_token sep h tok -> nth_error (split sep h) 0 = Some tok.
Proof.
  revert h. induction tok as [|c t IH]; intros h [Hno Hh].
  - destruct Hh as [->|[rest ->]]; simpl; auto.
    now rewrite Ascii.eqb_refl.
  - simpl in Hno. apply orb_false_iff in Hno. destruct Hno as [Hc Ht].
    assert (Hh' : exists h', h = String c h' /\ first_token sep h' t).
    { destruct Hh as [->|[rest ->]].
      - exists t. split; auto. split; auto.
      - exists (t ++ String sep rest). split; auto. split; eauto. }
    destruct Hh' as (h' & -> & Hft). simpl. rewrite Hc.
    specialize (IH h' Hft).
    destruct (split sep h') as [|tok0 toks]; simpl in *; congruence.
Qed.

Lemma client_key_of_first_token (req : Request) (h tok : string) :
  x_forwarded_for req = Some h -> first_token "," h tok ->
  client_key req = Returned (JStr (trim tok)).
Proof.
  intros Hh Hft. unfold client_key. rewrite Hh. cbn [of_option].
  now rewrite (first_token_split "," h tok Hft).
Qed.

Lemma trimStart_all_white (s : string) :
  all_white s = true -> trimStart s = EmptyString.
Proof.
  induction s as [|c r IH]; simpl; auto.
  intros H. apply andb_true_iff in H. destruct H as [Hc Hr].
  rewrite Hc. auto.
Qed.

(** X2: with a forwarded-for header the treatment of a request depends on
    the first token of the header alone, white space around it apart:
    two requests whose first tokens agree once trimmed are treated alike,
    whatever follows the first comma and whatever their addresses. *)
Theorem rateLimiter_same_first_token (limit : JsValue -> Outcome bool)
        (req req' : Request) (h h' tok tok' : string) :
  x_forwarded_for req = Some h -> first_token "," h tok ->
  x_forwarded_for req' = Some h' -> first_token "," h' tok' ->
  trim tok = trim tok' ->
  client_key req = client_key req' /\
  rateLimiter limit req = rateLimiter limit req'.
Proof.
  intros Hh Hft Hh' Hft' Heq.
  assert (Hk : client_key req = client_key req').
  { rewrite (client_key_of_first_token req h tok Hh Hft).
    rewrite (client_key_of_first_token req' h' tok' Hh' Hft').
    now rewrite Heq. }
  split; [exact Hk|]. unfold rateLimiter. now rewrite Hk.
Qed.

Lemma rateLimiter_same_first_token_witness :
  rateLimiter (fun _ => Returned true)
    (mkRequest (Some "1.2.3.4, 10.0.0.1") (JStr "10.0.0.1") JUndefined) =
  rateLimiter (fun _ => Returned true)
    (mkRequest (Some " 1.2.3.4 ") (JStr "203.0.113.9") (JStr "203.0.113.9")).
Proof.
  apply (rateLimiter_same_first_token (fun _ => Returned true)
           (mkRequest (Some "1.2.3.4, 10.0.0.1") (JStr "10.0.0.1")
                      JUndefined)
           (mkRequest (Some " 1.2.3.4 ") (JStr "203.0.113.9")
                      (JStr "203.0.113.9"))
           "1.2.3.4, 10.0.0.1" " 1.2.3.4 " "1.2.3.4" " 1.2.3.4 ").
  - reflexivity.
  - split; [reflexivity|]. right. now exists " 10.0.0.1".
  - reflexivity.
  - split; [reflexivity|]. now left.
  - reflexivity.
Defined.

(** X3: a forwarded-for header whose first token is blank (an empty or
    blank header, or one that begins with a comma) gives the empty key:
    the limiter is asked about the empty string and the addresses of the
    request are not used. *)
Theorem rateLimiter_blank_token (limit : JsValue -> Outcome bool)
        (req : Request) (h tok : string) :
  x_forwarded_for req = Some h -> first_token "," h tok ->
  all_white tok = true ->
  client_key req = Returned (JStr "") /\
  exists rest, rateLimiter limit req = LimitCall (JStr "") :: rest.
Proof.
  intros Hh Hft Hw.
  assert (Hk : client_key req = Returned (JStr "")).
  { rewrite (client_key_of_first_token req h tok Hh Hft).
    unfold trim. now rewrite (trimStart_all_white tok Hw). }
  split; [exact Hk|]. unfold rateLimiter. rewrite Hk. eauto.
Qed.

Lemma rateLimiter_blank_token_witness :
  client_key (mkRequest (Some " ,1.2.3.4") (JStr "1.2.3.4") (JStr "1.2.3.4"))
  = Returned (JStr "").
Proof.
  apply (rateLimiter_blank_token (fun _ => Returned true)
           (mkRequest (Some " ,1.2.3.4") (JStr "1.2.3.4") (JStr "1.2.3.4"))
           " ,1.2.3.4" " ").
  - reflexivity.
  - split; [reflexivity|]. right. now exists "1.2.3.4".
  - reflexivity.
Defined.

End RateLimiterKeys.

(** ** The application of server.js *)

Module ServerFacts.
Import Js RateLimiter RateLimiterFacts Server.
Local Open Scope list_scope.

Section App.

Variable limit : JsValue -> Outcome bool.
Variable parse_json : Request -> Outcome JsValue.
Variable is_health : Request -> bool.
Variable is_transactions : Request -> bool.
Variable transactions_route : Request -> JsValue -> list string.

Local Notation the_app :=
  (app limit parse_json is_health is_transactions transactions_route).

(** X4: the rate limiter stands before everything else, the health check
    included.  Every request is put to the limiter first; a refused one
    is answered 429 by the limiter and neither the body parser, nor the
    health handler, nor the router runs; when the limiter itself fails
    only the error handler runs; and the health handler answers, 200 with
    status ok, only a request that the limiter has admitted. *)
Theorem limiter_gates_every_route (req : Request) :
  exists key,
    client_key req = Returned key /\
    (exists rest, the_app req = Limiter (LimitCall key) :: rest) /\
    (limit key = Returned false ->
     the_app req =
     map Limiter [LimitCall key; ResStatus 429; ResJson too_many_requests]) /\
    (forall err,
       limit key = Thrown err ->
       the_app req =
       [Limiter (LimitCall key);
        Limiter (ConsoleError "Rate limiter error:" err);
        Limiter (NextError err); ErrorHandler err]) /\
    (limit key = Returned true ->
     the_app req =
     Limiter (LimitCall key) :: Limiter Next
     :: after_limiter parse_json is_health is_transactions
          transactions_route req) /\
    (In (Health 200 (JObj [("status", JStr "ok")])) (the_app req) ->
     limit key = Returned true /\ is_health req = true).
Proof.
  destruct (client_key_returns req) as (key & Hkey).
  exists key. split; [exact Hkey|].
  unfold app, rateLimiter. rewrite Hkey.
  destruct (limit key) as [[|]|err] eqn:Hl; simpl.
  - split; [eauto|]. split; [discriminate|]. split; [discriminate|].
    split; [now rewrite app_nil_r|].
    unfold after_limiter. intros [H|[H|[H|H]]]; try discriminate.
    split; auto.
    destruct (parse_json req) as [body|e]; simpl in H.
    + destruct (is_health req); auto.
      destruct (is_transactions req); simpl in H;
        destruct H as [H|[]]; discriminate.
    + destruct H as [H|[]]; discriminate.
  - split; [eauto|]. split; [reflexivity|]. split; [discriminate|].
    split; [discriminate|].
    intros [H|[H|[H|[]]]]; discriminate.
  - split; [eauto|]. split; [discriminate|].
    split; [intros e He; now injection He as <-|].
    split; [discriminate|].
    intros [H|[H|[H|[H|[]]]]]; discriminate.
Qed.

End App.

End ServerFacts.

(** ** The handlers of part_001 together *)

Module CrudFacts.
Import Js Store Controller Crud JsFacts ControllerFacts.
Local Open Scope list_scope.

(** Runs a handler through its tests and through the answers of the
    store. *)
Ltac run_handler :=
  unfold serve, getItemById, getItemsByUserId, updateItem, patchItem,
    createItem, deleteItem;
  cbv beta iota zeta;
  repeat match goal with
         | |- context [findById ?d ?a ?s] =>
             destruct (findById d a s) as [[?|?] ?]
         | |- context [findByUserId ?d ?a ?o ?s] =>
             destruct (findByUserId d a o s) as [[?|?] ?]
         | |- context [create ?d ?a ?s] =>
             destruct (create d a s) as [[?|?] ?]
         | |- context [updateById ?d ?a ?o ?s] =>
             destruct (updateById d a o s) as [[?|?] ?]
         | |- context [deleteById ?d ?a ?s] =>
             destruct (deleteById d a s) as [[?|?] ?]
         | |- context [keys_length ?b] =>
             destruct (keys_length b) as [[|?]|]
         | |- context [if ?b then _ else _] => destruct b
         end;
  cbn [fst snd status body console respond internal_error].

Section AnyDb.

Variable St : Type.
Variable db : Db St.

Lemma item_reply_status (label : string) (wrap : JsValue -> JsValue)
      (r : Outcome JsValue * St) :
  let reply := fst (item_reply label wrap r) in
  (status reply = 200 \/ status reply = 404 \/ status reply = 500) /\
  (400 <= status reply -> exists m, body reply = message m) /\
  (status reply = 500 ->
   body reply = message "Internal server error" /\ console reply = [label]) /\
  (status reply <> 500 -> console reply = []).
Proof.
  destruct r as [[item|err] s']; simpl.
  - destruct (Js.not item); simpl; repeat split; eauto;
      try discriminate; try lia.
  - repeat split; eauto. intros H. now elim H.
Qed.

Lemma getItemById_passed (x : string) (s : St) :
  x <> "" ->
  getItemById db (Some x) s =
  item_reply "Error fetching item:" (fun item => item)
             (findById db (JStr x) s).
Proof.
  intros Hx. unfold getItemById, Js.not. simpl.
  apply String.eqb_neq in Hx. rewrite Hx. simpl.
  now destruct (findById db (JStr x) s) as [[item|err] s'].
Qed.

Lemma updateItem_passed (x : string) (fields : list (string * JsValue))
      (s : St) :
  x <> "" ->
  truthy (get (JObj fields) "title") = true ->
  get (JObj fields) "amount" <> JUndefined ->
  truthy (get (JObj fields) "category") = true ->
  updateItem db (Some x) (JObj fields) s =
  item_reply "Error updating item:" (fun item => item)
    (updateById db (JStr x)
       (JObj [("title", get (JObj fields) "title");
              ("amount", get (JObj fields) "amount");
              ("category", get (JObj fields) "category")]) s).
Proof.
  intros Hx Ht Ha Hc. unfold updateItem, Js.not. cbv beta iota zeta.
  simpl of_option. simpl truthy at 1.
  apply String.eqb_neq in Hx. rewrite Hx, Ht, Hc.
  assert (Hu : is_undefined (get (JObj fields) "amount") = false)
    by (destruct (get (JObj fields) "amount"); auto; now elim Ha).
  rewrite Hu. simpl.
  now destruct (updateById db _ _ s) as [[item|err] s'].
Qed.

Lemma patchItem_passed (x : string) (data : JsValue) (n : nat) (s : St) :
  x <> "" -> keys_length data = Some (S n) ->
  patchItem db (Some x) data s =
  item_reply "Error patching item:" (fun item => item)
             (updateById db (JStr x) data s).
Proof.
  intros Hx Hn. unfold patchItem, Js.not. simpl.
  apply String.eqb_neq in Hx. rewrite Hx, Hn. simpl.
  now destruct (updateById db (JStr x) data s) as [[item|err] s'].
Qed.

(** X5: the replies of the six handlers.  The status is one of the codes
    the guide lists, 201 coming from createItem alone and 404 never from
    createItem or getItemsByUserId; every reply of status 400 or more has
    the body {message}; a 500 carries the fixed message, whatever the
    store threw, and is the only reply that logs. *)
Theorem serve_replies (c : Call) (s : St) :
  let reply := fst (serve db c s) in
  In (status reply) documented_status /\
  (status reply = 201 -> exists b, c = CreateItem b) /\
  (status reply = 404 ->
   (forall b, c <> CreateItem b) /\ (forall u q, c <> GetItemsByUserId u q)) /\
  (400 <= status reply -> exists m, body reply = message m) /\
  (status reply = 500 -> body reply = message "Internal server error") /\
  (status reply = 500 <-> console reply <> []).
Proof.
  assert (Hin : forall x, x = 200 \/ x = 201 \/ x = 400 \/ x = 404 \/
                          x = 500 -> In x documented_status)
    by (intros x [ -> | [ -> | [ -> | [ -> | -> ]]]]; simpl; auto 10).
  destruct c as [i|u q|b|i b|i b|i];
    try (destruct q); try (destruct b);
    run_handler;
    (split; [apply Hin; auto 6|]);
    (split; [try discriminate; eauto|]);
    (split; [try discriminate; intros _; split; intros; discriminate|]);
    (split; [try (intros; exfalso; lia); eauto|]);
    (split; [try discriminate; reflexivity|]);
    (split; [try discriminate; intros _; discriminate
            | intros H; try reflexivity; now elim H]).
Qed.

(** X6: a 400 is decided before the store is reached.  Whatever the
    handler, a request answered 400 leaves the store as it was, and the
    same request is answered alike with any other [db]. *)
Theorem bad_request_before_store (db' : Db St) (c : Call) (s : St) :
  status (fst (serve db c s)) = 400 ->
  snd (serve db c s) = s /\ serve db' c s = serve db c s.
Proof.
  destruct c as [i|u q|b|i b|i b|i];
    try (destruct q); try (destruct b);
    run_handler; intros H; try discriminate H; split; reflexivity.
Qed.

End AnyDb.

Lemma bad_request_before_store_witness :
  snd (serve failing (PatchItem (Some "7") (JObj [])) tt) = tt /\
  serve failing (PatchItem (Some "7") (JObj [])) tt =
  serve failing (PatchItem (Some "7") (JObj [])) tt.
Proof.
  apply (bad_request_before_store unit failing failing
           (PatchItem (Some "7") (JObj [])) tt).
  reflexivity.
Defined.

Section Compared.

Variable St : Type.
Variable db : Db St.

(** X7: updateItem does not check the type of [amount], createItem does.
    A body whose text fields are filled in and whose amount is there but
    is not a number is refused by createItem, 400 and the store
    untouched, while updateItem hands that amount to the store. *)
Theorem updateItem_skips_amount_type (x : string)
        (fields : list (string * JsValue)) (s : St) :
  x <> "" ->
  truthy (get (JObj fields) "userId") = true ->
  truthy (get (JObj fields) "title") = true ->
  truthy (get (JObj fields) "category") = true ->
  get (JObj fields) "amount" <> JUndefined ->
  typeof (get (JObj fields) "amount") <> TNumber ->
  createItem St (create db) (JObj fields) s =
  (respond 400 (message "Amount must be a number"), s) /\
  updateItem db (Some x) (JObj fields) s =
  item_reply "Error updating item:" (fun item => item)
    (updateById db (JStr x)
       (JObj [("title", get (JObj fields) "title");
              ("amount", get (JObj fields) "amount");
              ("category", get (JObj fields) "category")]) s).
Proof.
  intros Hx Hu Ht Hc Ha Hn. split.
  - unfold createItem, Js.not. cbv beta iota zeta. rewrite Hu, Ht, Hc.
    assert (Hd : is_undefined (get (JObj fields) "amount") = false)
      by (destruct (get (JObj fields) "amount"); auto; now elim Ha).
    rewrite Hd. cbn [negb orb].
    destruct (JsType_eqb (typeof (get (JObj fields) "amount")) TNumber)
      eqn:E; [|reflexivity].
    apply typeof_number in E. destruct E as [q E]. rewrite E in Hn.
    now elim Hn.
  - now apply updateItem_passed.
Qed.

(** X8: only deleteItem checks the format of the id.  An id in which
    [parseInt] finds no number is refused by deleteItem, 400 and the
    store untouched, while getItemById and patchItem hand it to the
    store. *)
Theorem only_deleteItem_checks_id_format (x : string) (data : JsValue)
        (n : nat) (s : St) :
  x <> "" -> parseInt x = None -> keys_length data = Some (S n) ->
  deleteItem St (deleteById db) (Some x) s =
  (respond 400 (message "Invalid item ID format"), s) /\
  getItemById db (Some x) s =
  item_reply "Error fetching item:" (fun item => item)
             (findById db (JStr x) s) /\
  patchItem db (Some x) data s =
  item_reply "Error patching item:" (fun item => item)
             (updateById db (JStr x) data s).
Proof.
  intros Hx Hp Hn. split; [|split].
  - unfold deleteItem, Js.not, isNaN_parseInt. simpl.
    apply String.eqb_neq in Hx. now rewrite Hx, Hp.
  - now apply getItemById_passed.
  - now apply patchItem_passed with (n := n).
Qed.

(** X9: what reaches the store in an update.  updateItem reads [title],
    [amount] and [category] and nothing else: two bodies that agree on
    these three are treated alike.  patchItem hands the body over as it
    is, keys such as [id], [userId] or [createdAt] included. *)
Theorem update_data_reaching_store (i : option string)
        (fields fields' : list (string * JsValue)) (s : St) :
  (get (JObj fields) "title" = get (JObj fields') "title" ->
   get (JObj fields) "amount" = get (JObj fields') "amount" ->
   get (JObj fields) "category" = get (JObj fields') "category" ->
   updateItem db i (JObj fields) s = updateItem db i (JObj fields') s) /\
  (forall x, i = Some x -> x <> "" -> fields <> [] ->
   patchItem db i (JObj fields) s =
   item_reply "Error patching item:" (fun item => item)
              (updateById db (JStr x) (JObj fields) s)).
Proof.
  split.
  - intros Ht Ha Hc. unfold updateItem. cbv beta iota zeta.
    now rewrite Ht, Ha, Hc.
  - intros x -> Hx Hf. destruct fields as [|f rest]; [now elim Hf|].
    now apply patchItem_passed with (n := List.length rest).
Qed.

(** X10: getItemsByUserId never answers 404.  Whatever the store gives
    back for a user, an empty list or [null] too, is sent with status
    200, where getItemById answers 404 to a falsy answer of the store;
    [limit] and [offset] go to the store as the query has them. *)
Theorem getItemsByUserId_never_not_found (u : option string)
        (query : JsValue) (x : string) (q : list (string * JsValue))
        (s : St) :
  status (fst (getItemsByUserId db u query s)) <> 404 /\
  (x <> "" ->
   getItemsByUserId db (Some x) (JObj q) s =
   match findByUserId db (JStr x)
           (JObj [("limit", get (JObj q) "limit");
                  ("offset", get (JObj q) "offset")]) s with
   | (Returned items, s') => (respond 200 items, s')
   | (Thrown _, s') => (internal_error "Error fetching items:", s')
   end) /\
  (forall item s',
     truthy item = false ->
     x <> "" ->
     findById db (JStr x) s = (Returned item, s') ->
     getItemById db (Some x) s =
     (respond 404 (message "Item not found"), s')).
Proof.
  split; [|split].
  - destruct query; run_handler; discriminate.
  - intros Hx. unfold getItemsByUserId, Js.not. cbv beta iota zeta.
    simpl of_option. simpl truthy. apply String.eqb_neq in Hx.
    now rewrite Hx.
  - intros item s' Hi Hx Hf. rewrite getItemById_passed by exact Hx.
    rewrite Hf. unfold item_reply, Js.not. now rewrite Hi.
Qed.

(** X11: a request without a body.  createItem and updateItem read the
    fields of the body before any test, so a missing body is answered
    500, by updateItem even when the id is missing too; patchItem tests
    the id first and answers 400 without one, 500 otherwise.  An empty
    body is answered 400 by all three.  The store is never reached. *)
Theorem missing_body (i : option string) (b : JsValue) (s : St) :
  (b = JUndefined \/ b = JNull ->
   createItem St (create db) b s =
   (internal_error "Error creating item:", s) /\
   updateItem db i b s = (internal_error "Error updating item:", s) /\
   (truthy (of_option i) = true ->
    patchItem db i b s = (internal_error "Error patching item:", s)) /\
   (truthy (of_option i) = false ->
    patchItem db i b s = (respond 400 (message "Item ID is required"), s))) /\
  (b = JObj [] ->
   status (fst (createItem St (create db) b s)) = 400 /\
   status (fst (updateItem db i b s)) = 400 /\
   status (fst (patchItem db i b s)) = 400 /\
   snd (createItem St (create db) b s) = s /\
   snd (updateItem db i b s) = s /\
   snd (patchItem db i b s) = s).
Proof.
  split.
  - intros [->| ->]; repeat split; try reflexivity;
      intros H; unfold patchItem, Js.not; rewrite H; reflexivity.
  - intros ->. unfold updateItem, patchItem, Js.not.
    destruct (truthy (of_option i)); repeat split.
Qed.

End Compared.

Lemma updateItem_skips_amount_type_witness :
  createItem unit (create failing)
    (JObj [("userId", JStr "1"); ("title", JStr "D");
           ("amount", JStr "12"); ("category", JStr "food")]) tt
  = (respond 400 (message "Amount must be a number"), tt)
  /\
  updateItem failing (Some "7")
    (JObj [("userId", JStr "1"); ("title", JStr "D");
           ("amount", JStr "12"); ("category", JStr "food")]) tt
  = (internal_error "Error updating item:", tt).
Proof.
  apply (updateItem_skips_amount_type unit failing "7"
           [("userId", JStr "1"); ("title", JStr "D");
            ("amount", JStr "12"); ("category", JStr "food")] tt);
    reflexivity || discriminate.
Defined.

Lemma only_deleteItem_checks_id_format_witness :
  deleteItem unit (deleteById failing) (Some "abc") tt
  = (respond 400 (message "Invalid item ID format"), tt)
  /\
  getItemById failing (Some "abc") tt
  = (internal_error "Error fetching item:", tt)
  /\
  patchItem failing (Some "abc") (JObj [("title", JStr "D")]) tt
  = (internal_error "Error patching item:", tt).
Proof.
  apply (only_deleteItem_checks_id_format unit failing "abc"
           (JObj [("title", JStr "D")]) 0 tt);
    reflexivity || discriminate.
Defined.

End CrudFacts.

(** ** Creation and deletion together *)

Module RoundTrip.
Import Js Store Controller JsFacts ControllerFacts.
Local Open Scope list_scope.

Lemma find_app_absent (n : Z) (l l' : list Transaction) :
  (forall r, In r l -> id r <> n) ->
  find (has_id n) (l ++ l') = find (has_id n) l'.
Proof.
  induction l as [|y l IH]; simpl; auto.
  intros H. unfold has_id at 1.
  destruct (Z.eqb_spec (id y) n) as [E|_].
  - elim (H y); auto.
  - apply IH. auto.
Qed.

(** X12: deleting what was just created.  On the store of the model, a
    valid creation followed by the deletion of the identifier it was
    given is answered 200 with the very item the creation returned, and
    leaves the table as it was before the creation; the identifier is
    used up. *)
Theorem create_then_delete (fields : list (string * JsValue))
        (u ti c x : string) (q : Q) (s : Store.t) :
  wf s ->
  get (JObj fields) "userId" = JStr u -> u <> "" ->
  get (JObj fields) "title" = JStr ti -> ti <> "" ->
  get (JObj fields) "amount" = JNum q ->
  get (JObj fields) "category" = JStr c -> c <> "" ->
  numeral_value x = Some (next_id s) ->
  exists item,
    fst (createItem Store.t Store.create (JObj fields) s) = respond 201 item /\
    deleteItem Store.t Store.deleteById (Some x)
      (snd (createItem Store.t Store.create (JObj fields) s)) =
    (respond 200
       (JObj [("message", JStr "Item deleted successfully");
              ("deletedItem", item)]),
     mkStore (rows s) (next_id s + 1) (clock s + 1)).
Proof.
  intros Hwf Hu Hun Ht Htn Ha Hc Hcn Hx.
  set (r := mkTransaction (next_id s) u ti q c (clock s)).
  assert (Hcreate : createItem Store.t Store.create (JObj fields) s =
            (respond 201 (to_json r),
             mkStore (rows s ++ [r]) (next_id s + 1) (clock s + 1))).
  { rewrite createItem_accepted.
    - rewrite Hu, Ht, Ha, Hc. reflexivity.
    - rewrite Hu. now apply nonempty_truthy.
    - rewrite Ht. now apply nonempty_truthy.
    - rewrite Hc. now apply nonempty_truthy.
    - eauto. }
  rewrite Hcreate. cbn [fst snd]. exists (to_json r). split; [reflexivity|].
  destruct (numeral_parseInt x _ Hx) as [Hne Hp].
  rewrite (deleteItem_passed _ _ x _ _ Hne Hp).
  unfold Store.deleteById. cbn [as_id rows next_id clock]. rewrite Hx.
  assert (Hfresh : forall y, In y (rows s) -> id y <> next_id s).
  { intros y Hy E. destruct Hwf as [_ Hlt].
    rewrite Forall_forall in Hlt. specialize (Hlt y Hy). lia. }
  rewrite (find_app_absent _ _ _ Hfresh). simpl find.
  unfold has_id at 1. simpl id. rewrite Z.eqb_refl.
  rewrite filter_app, (filter_absent _ _ Hfresh). simpl filter.
  assert (Hr : has_id (next_id s) r = true) by apply Z.eqb_refl.
  rewrite Hr. cbn [negb]. now rewrite app_nil_r.
Qed.

Lemma create_then_delete_witness :
  exists item,
    fst (createItem Store.t Store.create
           (JObj [("userId", JStr "1"); ("title", JStr "D");
                  ("amount", JNum (-5)); ("category", JStr "food")])
           scenario) = respond 201 item /\
    deleteItem Store.t Store.deleteById (Some "4")
      (snd (createItem Store.t Store.create
              (JObj [("userId", JStr "1"); ("title", JStr "D");
                     ("amount", JNum (-5)); ("category", JStr "food")])
              scenario)) =
    (respond 200
       (JObj [("message", JStr "Item deleted successfully");
              ("deletedItem", item)]),
     mkStore (rows scenario) 5 4).
Proof.
  apply (create_then_delete
           [("userId", JStr "1"); ("title", JStr "D");
            ("amount", JNum (-5)); ("category", JStr "food")]
           "1" "D" "food" "4" (-5)%Q scenario);
    try reflexivity; try discriminate.
  exact scenario_wf.
Defined.

End RoundTrip.

(** ** More on the hook *)

Module HookUseFacts.
Import Js Async Hook HookUse AsyncFacts HookFacts.
Local Open Scope list_scope.
Local Open Scope nat_scope.

Lemma steady_weaken (E : Type) (Q Q' : E -> Prop) (p : Proc E) :
  (forall e, Q e -> Q' e) -> steady Q p -> steady Q' p.
Proof.
  intros HQ.
  induction p as [|e|e k IH|k IH|r k IH|a IHa b IHb k IHk|a IHa k IHk];
    simpl; auto.
  - intros [He Hk]. auto.
  - intros (Ha & Hb & Hk). auto.
  - intros [Ha Hk]. auto.
Qed.

Lemma fetcher_effect_silent e : fetcher_effect e -> silent e.
Proof. destruct e as [[|] ?| | | | |]; simpl; auto. Qed.

Lemma loadData_steady (Q : Effect -> Prop) u :
  (forall e, fetcher_effect e -> Q e) ->
  (forall b, Q (SetIsLoading b)) ->
  steady Q (loadData u).
Proof.
  intros Hf Hl. destruct (truthy (of_option u)) eqn:H.
  - rewrite (loadData_present u H).
    change (Q (SetIsLoading true) /\
            steady Q (fetchTransaction u) /\
            steady Q (fetchSummary u) /\
            steady Q (after_all (Returned tt))).
    split; [apply Hl|]. split; [|split].
    + apply steady_weaken with (Q := fetcher_effect); auto.
      apply fetchTransaction_steady.
    + apply steady_weaken with (Q := fetcher_effect); auto.
      apply fetchSummary_steady.
    + simpl. auto.
  - unfold loadData, Js.not. rewrite H. exact I.
Qed.

Lemma alerts_app t t' : alerts (t ++ t') = alerts t + alerts t'.
Proof.
  induction t as [|e t IH]; simpl; auto.
  destruct e; simpl; auto.
Qed.

Lemma alerts_silent t : Forall silent t -> alerts t = 0.
Proof.
  induction 1 as [|e t He _ IH]; simpl; auto.
  destruct e; simpl in *; auto. destruct He.
Qed.

(** X14: loading is silent.  Under every schedule and whatever the
    answers, [loadData] and the two fetch functions show no alert and
    send no DELETE request. *)
Theorem loadData_is_silent (u : option string) (sched : list Settlement) :
  Forall silent (fst (call (loadData u) sched)) /\
  Forall silent (fst (call (fetchTransaction u) sched)) /\
  Forall silent (fst (call (fetchSummary u) sched)).
Proof.
  split; [|split].
  - apply steady_call.
    apply loadData_steady; [apply fetcher_effect_silent|intros b; exact I].
  - apply steady_call.
    apply steady_weaken with (Q := fetcher_effect);
      [apply fetcher_effect_silent|apply fetchTransaction_steady].
  - apply steady_call.
    apply steady_weaken with (Q := fetcher_effect);
      [apply fetcher_effect_silent|apply fetchSummary_steady].
Qed.

Lemma deleteTransactions_steady u id :
  steady (fun _ => True) (deleteTransactions u id).
Proof.
  simpl. split; [exact I|]. intros [r|err]; simpl; auto.
  destruct (ok r); simpl; auto. split; auto.
  apply loadData_steady; auto.
Qed.

(** X13: the alerts of [deleteTransactions].  Nothing is shown before the
    delete request is answered; once it is, exactly one alert is shown,
    whatever the answer and whatever the refresh does afterwards.  The
    promise of [deleteTransactions] never rejects.  When the request
    fails, by a rejection or by a status that is not a success, the
    failure is logged, the alert carries its message, and nothing else
    happens: no refresh, no change of state. *)
Theorem deleteTransactions_alerts (u : option string) (id : string)
        (o : Outcome Response) (rest : list Settlement) :
  alerts (fst (call (deleteTransactions u id) [])) = 0 /\
  alerts (fst (call (deleteTransactions u id) ((0, o) :: rest))) = 1 /\
  (forall sched err,
     result (snd (call (deleteTransactions u id) sched))
     <> Some (Thrown err)) /\
  ((forall r, o = Returned r -> ok r = false) ->
   let reason :=
     match o with
     | Thrown err => err
     | Returned _ => "Failed to delete transaction"%string
     end in
   call (deleteTransactions u id) ((0, o) :: rest) =
   ([Fetch DELETE (API_URL ++ "/transactions/" ++ id)%string;
     ConsoleError "Error deleting transaction" reason;
     Alert "Error" reason],
    Ret)).
Proof.
  assert (Hfail : (forall r, o = Returned r -> ok r = false) ->
            call (deleteTransactions u id) ((0, o) :: rest) =
            ([Fetch DELETE (API_URL ++ "/transactions/" ++ id)%string;
              ConsoleError "Error deleting transaction"
                match o with
                | Thrown err => err
                | Returned _ => "Failed to delete transaction"%string
                end;
              Alert "Error"
                match o with
                | Thrown err => err
                | Returned _ => "Failed to delete transaction"%string
                end],
             Ret)).
  { intros Ho. unfold call, deleteTransactions, fetch.
    cbn [try_catch sync].
    cbn [run step fst snd waiting Nat.ltb Nat.leb resume awaited].
    destruct o as [r|err]; cbn [awaited].
    - rewrite (Ho r eq_refl). cbn [negb try_catch sync app].
      now rewrite run_done.
    - cbn [try_catch sync app]. now rewrite run_done. }
  split; [reflexivity|]. split; [|split].
  - destruct o as [r|err]; [destruct (ok r) eqn:Hok|].
    + unfold call, deleteTransactions, fetch.
      cbn [try_catch sync].
      cbn [run step fst snd waiting Nat.ltb Nat.leb resume awaited].
      rewrite Hok. cbn [negb try_catch sync].
      assert (Hs : steady silent (loadData u))
        by (apply loadData_steady;
            [apply fetcher_effect_silent|intros b; exact I]).
      destruct (steady_sync Effect silent (loadData u) Hs) as [F0 S0].
      destruct (sync (loadData u)) as [t0 p0]. cbn [fst snd] in *.
      rewrite run_detached.
      destruct (steady_run Effect silent p0 rest S0) as [F1 _].
      destruct (run p0 rest) as [t1 p1]. cbn [fst snd app] in *.
      cbn [alerts]. rewrite !alerts_app. cbn [alerts].
      rewrite (alerts_silent t0 F0), (alerts_silent t1 F1). reflexivity.
    + rewrite Hfail; [reflexivity|].
      intros r' E. now injection E as <-.
    + rewrite Hfail; [reflexivity|]. discriminate.
  - intros sched err.
    apply (steady_call Effect (fun _ => True) _ sched
             (deleteTransactions_steady u id)).
  - exact Hfail.
Qed.

Lemma deleteTransactions_alerts_witness :
  call (deleteTransactions (Some "user_1"%string) "7")
       [(0, Thrown "Network request failed"%string)] =
  ([Fetch DELETE (API_URL ++ "/transactions/7")%string;
    ConsoleError "Error deleting transaction" "Network request failed";
    Alert "Error" "Network request failed"],
   Ret).
Proof.
  apply (deleteTransactions_alerts (Some "user_1"%string) "7"
           (Thrown "Network request failed"%string) []).
  discriminate.
Defined.

Lemma apply_all_frame (A : Type) (f : State -> A) (Q : Effect -> Prop) t :
  (forall st e, Q e -> f (apply st e) = f st) ->
  Forall Q t -> forall st, f (apply_all st t) = f st.
Proof.
  intros Hq. unfold apply_all.
  induction 1 as [|e t He _ IH]; intros st; simpl; auto.
  rewrite IH. auto.
Qed.

Lemma fetchTransaction_list_effects u :
  steady list_effect (fetchTransaction u).
Proof.
  simpl. split; [exact I|]. intros [r|err]; simpl; auto.
  destruct (json_of r); simpl; auto.
Qed.

Lemma fetchSummary_summary_effects u :
  steady summary_effect (fetchSummary u).
Proof.
  simpl. split; [exact I|]. intros [r|err]; simpl; auto.
  destruct (json_of r); simpl; auto.
Qed.

(** X15: each fetch function writes its own part of the state only.
    Under every schedule [fetchTransaction] leaves the summary and the
    loading flag as they are, and [fetchSummary] leaves the transactions
    and the loading flag as they are. *)
Theorem fetches_touch_own_slice (u : option string)
        (sched : list Settlement) (st : State) :
  (summary (apply_all st (fst (call (fetchTransaction u) sched)))
   = summary st /\
   isLoading (apply_all st (fst (call (fetchTransaction u) sched)))
   = isLoading st) /\
  (transactions (apply_all st (fst (call (fetchSummary u) sched)))
   = transactions st /\
   isLoading (apply_all st (fst (call (fetchSummary u) sched)))
   = isLoading st).
Proof.
  destruct (steady_call Effect list_effect _ sched
              (fetchTransaction_list_effects u)) as [Ft _].
  destruct (steady_call Effect summary_effect _ sched
              (fetchSummary_summary_effects u)) as [Fs _].
  repeat split.
  - apply (apply_all_frame _ summary list_effect); auto.
    intros st0 [] He; simpl in *; auto; destruct He.
  - apply (apply_all_frame _ isLoading list_effect); auto.
    intros st0 [] He; simpl in *; auto; destruct He.
  - apply (apply_all_frame _ transactions summary_effect); auto.
    intros st0 [] He; simpl in *; auto; destruct He.
  - apply (apply_all_frame _ isLoading summary_effect); auto.
    intros st0 [] He; simpl in *; auto; destruct He.
Qed.

(** X16: a failed fetch keeps what the hook holds.  When the request is
    rejected, or its answer has a body that does not parse, each fetch
    function logs the failure once and the state stays exactly as it
    was. *)
Theorem failed_fetch_keeps_state (u : option string) (o o2 : Outcome Response)
        (rest : list Settlement) (st : State) :
  (forall r, o = Returned r -> resp_body r = None) ->
  let reason :=
    match o with
    | Thrown err => err
    | Returned _ => "SyntaxError"%string
    end in
  call (fetchTransaction u) ((0, o) :: (0, o2) :: rest) =
  ([Fetch GET (API_URL ++ "/transactions/" ++ text u)%string;
    ConsoleError "Error fetching transactions" reason], Ret) /\
  call (fetchSummary u) ((0, o) :: (0, o2) :: rest) =
  ([Fetch GET (API_URL ++ "/transactions/summary/" ++ text u)%string;
    ConsoleError "Error fetching transactions" reason], Ret) /\
  apply_all st (fst (call (fetchTransaction u) ((0, o) :: (0, o2) :: rest)))
  = st /\
  apply_all st (fst (call (fetchSummary u) ((0, o) :: (0, o2) :: rest)))
  = st.
Proof.
  intros Ho reason.
  assert (Ht : call (fetchTransaction u) ((0, o) :: (0, o2) :: rest) =
               ([Fetch GET (API_URL ++ "/transactions/" ++ text u)%string;
                 ConsoleError "Error fetching transactions" reason], Ret)).
  { unfold call, fetchTransaction, fetch, json. cbn [try_catch sync].
    unfold reason. destruct o as [r|err].
    - cbn [run step fst snd waiting Nat.ltb Nat.leb resume awaited try_catch
           sync].
      unfold json_of. rewrite (Ho r eq_refl).
      cbn [awaited try_catch sync app]. now rewrite run_done.
    - cbn [run step fst snd waiting Nat.ltb Nat.leb resume awaited try_catch
           sync app].
      now rewrite run_done. }
  assert (Hs : call (fetchSummary u) ((0, o) :: (0, o2) :: rest) =
               ([Fetch GET
                   (API_URL ++ "/transactions/summary/" ++ text u)%string;
                 ConsoleError "Error fetching transactions" reason], Ret)).
  { unfold call, fetchSummary, fetch, json. cbn [try_catch sync].
    unfold reason. destruct o as [r|err].
    - cbn [run step fst snd waiting Nat.ltb Nat.leb resume awaited try_catch
           sync].
      unfold json_of. rewrite (Ho r eq_refl).
      cbn [awaited try_catch sync app]. now rewrite run_done.
    - cbn [run step fst snd waiting Nat.ltb Nat.leb resume awaited try_catch
           sync app].
      now rewrite run_done. }
  rewrite Ht, Hs. repeat split; now destruct st.
Qed.

Lemma failed_fetch_keeps_state_witness :
  apply_all initial
    (fst (call (fetchTransaction (Some "user_1"%string))
            [(0, Returned (mkResponse 502 None)); (0, Thrown ""%string)]))
  = initial.
Proof.
  apply (failed_fetch_keeps_state (Some "user_1"%string)
           (Returned (mkResponse 502 None)) (Thrown ""%string) [] initial).
  intros r E. now injection E as <-.
Defined.

(** X17: the refreshed state does not depend on which answer comes
    first.  When both requests of [loadData] are answered with bodies
    that parse, then in each of the six orders in which the four awaits
    can settle the hook ends with the list body as transactions, the
    summary body as summary and the loading flag cleared, nothing left
    to await. *)
Theorem refresh_order_independent (u : option string) (r1 r2 : Response)
        (d1 d2 : JsValue) (o : Outcome Response) (st : State)
        (sched : list Settlement) :
  truthy (of_option u) = true ->
  resp_body r1 = Some d1 -> resp_body r2 = Some d2 ->
  In sched (interleavings r1 r2 o) ->
  apply_all st (fst (call (loadData u) sched)) = mkState d1 d2 false /\
  waiting (snd (call (loadData u) sched)) = 0.
Proof.
  intros Hu H1 H2 Hin. rewrite (loadData_present u Hu).
  destruct r1 as [c1 b1], r2 as [c2 b2]. simpl in H1, H2. subst b1 b2.
  unfold interleavings in Hin. simpl in Hin.
  destruct Hin as [<-|[<-|[<-|[<-|[<-|[<-|[]]]]]]]; split; reflexivity.
Qed.

Lemma refresh_order_independent_witness :
  apply_all initial
    (fst (call (loadData (Some "user_1"%string))
            [(1, Returned (mkResponse 200 (Some (JStr "S"))));
             (0, Returned (mkResponse 200 (Some (JArr []))));
             (1, Thrown ""%string); (0, Thrown ""%string)]))
  = mkState (JArr []) (JStr "S") false.
Proof.
  apply (refresh_order_independent (Some "user_1"%string)
           (mkResponse 200 (Some (JArr [])))
           (mkResponse 200 (Some (JStr "S")))
           (JArr []) (JStr "S") (Thrown ""%string) initial
           [(1, Returned (mkResponse 200 (Some (JStr "S"))));
            (0, Returned (mkResponse 200 (Some (JArr []))));
            (1, Thrown ""%string); (0, Thrown ""%string)]);
    try reflexivity.
  simpl. auto 10.
Defined.

(** X18: [loadData] keeps no guard against a second call.  When it is
    called again while a first call is under way, the second call sets
    the flag and issues both requests once more; and when the two
    requests of the first call have failed, the first call clears the
    flag although both requests of the second are still awaited. *)
Theorem overlapping_loads_clear_flag_early (u : option string)
        (e1 e2 : string) (st : State) :
  truthy (of_option u) = true ->
  fst (call (loadData_twice u) []) =
  fst (sync (loadData u)) ++ fst (sync (loadData u)) /\
  waiting (snd (call (loadData_twice u) [])) = 4 /\
  isLoading
    (apply_all st
       (fst (call (loadData_twice u) [(0, Thrown e1); (0, Thrown e2)])))
  = false /\
  waiting (snd (call (loadData_twice u) [(0, Thrown e1); (0, Thrown e2)]))
  = 2.
Proof.
  intros Hu. unfold loadData_twice. rewrite (loadData_present u Hu).
  repeat split.
Qed.

Lemma overlapping_loads_clear_flag_early_witness :
  isLoading
    (apply_all initial
       (fst (call (loadData_twice (Some "user_1"%string))
               [(0, Thrown "timeout"%string); (0, Thrown "timeout"%string)])))
  = false /\
  waiting (snd (call (loadData_twice (Some "user_1"%string))
                  [(0, Thrown "timeout"%string);
                   (0, Thrown "timeout"%string)]))
  = 2.
Proof.
  apply (overlapping_loads_clear_flag_early (Some "user_1"%string)
           "timeout" "timeout" initial eq_refl).
Defined.

End HookUseFacts.
